(** * fsm.c: the transition matcher and the table driver

    A shallow embedding of [run_transition] and [run_fsm] of [src/fsm.c].

    Conventions of the embedding.
    - The input is a NUL-terminated C string laid out in memory: its bytes,
      the terminator, and around them whatever memory holds, which the
      matchers read like any other byte. The cursor [*data] is the offset
      of the pointer from the first byte of the string; it is a pointer and
      is not subject to [int] arithmetic.
    - The consumed total [nbytes_processed] is a C [int]: additions to it
      wrap around at 32 bits. States and match results are the [int] values
      the table and the callables deliver, taken as [Z]; patterns are
      shorter than 2^31 bytes, so that [strlen] fits an [int].
    - The opaque [void *context] is a value of an abstract type [ctx] that is
      threaded through every host callable; [void *local_context] is a value
      of an abstract type [local].
    - Host callables are total functions. A predicate is handed the address
      of a copy of the cursor, so what it writes there is lost. A side-effect
      callback is handed the address of the cursor itself: it returns the
      cursor as it leaves it, together with the context. Neither writes the
      input or a table.
    - The arguments [trans] and [data] of [run_transition] are never NULL
      when [run_fsm] calls it, so that guard is not modelled.
    - A table is the list of the rows of the C array, sentinel row included.
      Walking off the end of a list that holds no sentinel row is the
      out-of-bounds read of the C code and is reported as [OutOfBounds].
    - A sub-machine row holds its sub-table, so sub-machines nest finitely;
      a table that refers back to itself is outside the model.
    - The [while] loop and the recursion through sub-machines are bounded by
      a fuel counter; [OutOfFuel] is "has not returned yet". *)

From Stdlib Require Import ZArith List String Ascii Bool Lia.
Import ListNotations.
Local Open Scope Z_scope.

(** ** Results of a computation that may not return *)

Inductive res (A : Type) : Type :=
| Ok (a : A)
| OutOfFuel
| OutOfBounds.

Arguments Ok {A} a.
Arguments OutOfFuel {A}.
Arguments OutOfBounds {A}.

Definition bind {A B : Type} (m : res A) (k : A -> res B) : res B :=
  match m with
  | Ok a => k a
  | OutOfFuel => OutOfFuel
  | OutOfBounds => OutOfBounds
  end.

Notation "x <- m ;; k" := (bind m (fun x => k))
  (at level 61, m at next level, right associativity).

(** ** C strings and memory *)

Definition NUL : ascii := Ascii.zero.

(** [p[i]] for a pattern [p]; the matchers read it at indices below
    [strlen p] only. *)
Definition pattern_byte (p : string) (i : nat) : ascii :=
  match String.get i p with
  | Some a => a
  | None => NUL
  end.

(** The memory the cursor points into: the bytes [text] of the input string
    at the offsets from 0 on, its NUL terminator behind them, and at every
    other offset the byte [beyond] that memory happens to hold there. *)
Record input : Type := mk_input {
  text : string;
  beyond : Z -> ascii
}.

(** The byte at offset [i]. *)
Definition read (buf : input) (i : Z) : ascii :=
  if (0 <=? i) && (i <? Z.of_nat (String.length (text buf)))
  then pattern_byte (text buf) (Z.to_nat i)
  else if i =? Z.of_nat (String.length (text buf)) then NUL
       else beyond buf i.

(** The addition of two C [int]s, wrapped around at 32 bits. *)
Definition int_wrap (z : Z) : Z :=
  (z + 2147483648) mod 4294967296 - 2147483648.

(** libc [strlen]: the number of bytes before the first NUL. *)
Fixpoint strlen (s : string) : nat :=
  match s with
  | EmptyString => O
  | String c s' => if Ascii.eqb c NUL then O else S (strlen s')
  end.

(** [memcmp(buf + off, p, n) == 0]. *)
Definition memcmp_eq (buf : input) (off : Z) (p : string) (n : nat) : bool :=
  forallb (fun i => Ascii.eqb (read buf (off + Z.of_nat i)) (pattern_byte p i))
          (seq 0 n).

(** ** The data model of fsm.h *)

(** Modelled from the spec: the header fsm.h is not among the sources; the
    match kinds are the labels of the [switch] of [run_transition], and
    [INVALID_MATCH] stands for any other value, which takes the [default]
    branch. *)
Inductive match_kind : Type :=
| EXACT_STR
| SINGLE_CHR
| FSM
| FUNC
| INVALID_MATCH.

(** Modelled from the spec: the classification of the on-success state;
    [run_fsm] tests it against [ACCEPT] and [REJECT] only. *)
Inductive state_kind : Type :=
| NORMAL
| ACCEPT
| REJECT.

Section Engine.

Context {ctx local : Type}.

(** Modelled from the spec: a predicate callable receives the cursor view,
    the context and the local data, and returns a consumed length or -1; it
    may mutate the context. The cursor it is handed is a copy, so what it does
    to that copy is not part of its result. *)
Definition action_fn : Type := input -> Z -> ctx -> local -> Z * ctx.

(** Modelled from the spec: a side-effect callback is given the cursor by
    reference ("cursor-in-out"), the context and the local data, and returns
    nothing. Its effects are the cursor and the context as it leaves
    them. *)
Definition transfn_fn : Type := input -> Z -> ctx -> local -> Z * ctx.

(** One row of a table ([struct transition]). A NULL pointer is [None]. *)
#[warnings="-register-all"]
Inductive transition : Type := mk_transition {
  current_state : Z;
  match_type : match_kind;
  str : option string;
  transition_table : option (list transition);
  action : option action_fn;
  local_context : local;
  state_pass : Z;
  state_fail : Z;
  type : state_kind;
  transfn : option transfn_fn;
  transition_name : option string
}.

Definition table : Type := list transition.

(** ** run_transition *)

Section Matcher.

(** The recursive call [run_fsm(trans->transition_table, data, context)]:
    result and context; the cursor it moves is the caller's copy. *)
Variable run_sub : table -> input -> Z -> ctx -> res (Z * ctx).

Definition run_transition (trans : transition) (buf : input) (data : Z)
  (context : ctx) : res (Z * ctx) :=
  match match_type trans with
  | EXACT_STR =>
      match str trans with
      | None => Ok (-1, context)
      | Some p =>
          if memcmp_eq buf data p (strlen p)
          then Ok (Z.of_nat (strlen p), context)
          else Ok (-1, context)
      end
  | SINGLE_CHR =>
      match str trans with
      | None => Ok (-1, context)
      | Some p =>
          if existsb (fun i => Ascii.eqb (read buf data) (pattern_byte p i))
                     (seq 0 (strlen p))
          then Ok (1, context)
          else Ok (-1, context)
      end
  | FSM =>
      match transition_table trans with
      | None => Ok (-1, context)
      | Some sub => run_sub sub buf data context
      end
  | FUNC =>
      match action trans with
      | None => Ok (-1, context)
      | Some f => Ok (f buf data context (local_context trans))
      end
  | INVALID_MATCH => Ok (-1, context)
  end.

(** ** The table scan of run_fsm *)

(** The locals of [run_fsm] together with [*data] and the context. The
    total [nbytes_processed] holds the value of a C [int]: it starts at 0
    and every addition to it is wrapped around (see [scan]). *)
Record driver : Type := mk_driver {
  cur_state : Z;
  nbytes_processed : Z;
  in_accept : bool;
  data_ptr : Z;
  context_of : ctx
}.

(** How the [for] loop over the table is left: by [return -1] in the REJECT
    branch, by [break] with [successful_trans = 1], or at the sentinel row
    with [successful_trans = 0]. The first two carry the value of
    [nbytes_used_transing] at that point. *)
Inductive scan_exit : Type :=
| Aborted (nbytes_used_transing : Z) (data : Z) (context : ctx)
| Broke (nbytes_used_transing : Z) (st : driver)
| Exhausted (st : driver).

(** [if (transfn != NULL) transfn(data, context, local_context)]: the
    cursor and the context after the call. *)
Definition call_transfn (trans : transition) (buf : input) (data : Z)
  (context : ctx) : Z * ctx :=
  match transfn trans with
  | Some f => f buf data context (local_context trans)
  | None => (data, context)
  end.

Definition fail_redirect (trans : transition) (st : driver) (context : ctx)
  : driver :=
  mk_driver (if state_fail trans >=? 0 then state_fail trans else cur_state st)
            (nbytes_processed st) (in_accept st) (data_ptr st) context.

(** The [for] loop from row [current_trans] on; [rows] is the rest of the
    array starting at [current_trans]. *)
Fixpoint scan (rows : table) (buf : input) (st : driver) : res scan_exit :=
  match rows with
  | [] => OutOfBounds
  | current_trans :: rest =>
      if current_state current_trans =? -1 then Ok (Exhausted st)
      else if cur_state st =? current_state current_trans then
        r <- run_transition current_trans buf (data_ptr st) (context_of st) ;;
        let nbytes_used_transing := fst r in
        if nbytes_used_transing >=? 0 then
          let called :=
            call_transfn current_trans buf (data_ptr st) (snd r) in
          let context' := snd called in
          let nbytes' :=
            int_wrap (nbytes_processed st + nbytes_used_transing) in
          let data' := fst called + nbytes_used_transing in
          match type current_trans with
          | ACCEPT =>
              Ok (Broke nbytes_used_transing
                        (mk_driver (state_pass current_trans) nbytes' true
                                   data' context'))
          | REJECT => Ok (Aborted nbytes_used_transing data' context')
          | NORMAL =>
              Ok (Broke nbytes_used_transing
                        (mk_driver (state_pass current_trans) nbytes' false
                                   data' context'))
          end
        else scan rest buf (fail_redirect current_trans st (snd r))
      else scan rest buf st
  end.

End Matcher.

(** ** run_fsm *)

Definition init_driver (data : Z) (context : ctx) : driver :=
  mk_driver 0 0 false data context.

(** The value returned after the [while] loop, with the final [*data] and
    context. *)
Definition finish (st : driver) : Z * Z * ctx :=
  (if in_accept st then nbytes_processed st else -1,
   data_ptr st, context_of st).

Definition halt (st : driver) : driver :=
  mk_driver (-1) (nbytes_processed st) (in_accept st) (data_ptr st)
            (context_of st).

(** The [while (current_state >= 0)] loop of [run_fsm] over [action_table].
    A recursive run through a sub-machine row starts from [init_driver] with
    the fuel that is left and hands back its result and the context only. *)
Fixpoint run_loop (fuel : nat) (action_table : table) (buf : input)
  (st : driver) : res (Z * Z * ctx) :=
  if cur_state st >=? 0 then
    match fuel with
    | O => OutOfFuel
    | S fuel' =>
        let run_sub sub b d c :=
          r <- run_loop fuel' sub b (init_driver d c) ;;
          Ok (fst (fst r), snd r) in
        e <- scan run_sub action_table buf st ;;
        match e with
        | Aborted _ d c => Ok (-1, d, c)
        | Broke _ st' => run_loop fuel' action_table buf st'
        | Exhausted st' => run_loop fuel' action_table buf (halt st')
        end
    end
  else Ok (finish st).

(** [run_fsm(action_table, data, context)]: the returned [int], the value of
    [*data] on return, and the context on return. *)
Definition run_fsm (fuel : nat) (action_table : table) (buf : input)
  (data : Z) (context : ctx) : res (Z * Z * ctx) :=
  run_loop fuel action_table buf (init_driver data context).

(** The lengths [nbytes_used_transing] of the transitions the run commits,
    in order (a rejecting transition included): the exits of the successive
    table scans of [run_loop]. *)
Fixpoint committed (fuel : nat) (action_table : table) (buf : input)
  (st : driver) : list Z :=
  if cur_state st >=? 0 then
    match fuel with
    | O => []
    | S fuel' =>
        let run_sub sub b d c :=
          r <- run_loop fuel' sub b (init_driver d c) ;;
          Ok (fst (fst r), snd r) in
        match scan run_sub action_table buf st with
        | Ok (Aborted n _ _) => [n]
        | Ok (Broke n st') => n :: committed fuel' action_table buf st'
        | _ => []
        end
    end
  else [].

(** The sub-run as [run_transition] sees it at a given fuel. *)
Definition sub_run (fuel : nat) (sub : table) (buf : input) (data : Z)
  (context : ctx) : res (Z * ctx) :=
  r <- run_fsm fuel sub buf data context ;;
  Ok (fst (fst r), snd r).

End Engine.

Arguments transition : clear implicits.
Arguments table : clear implicits.
Arguments driver : clear implicits.
Arguments scan_exit : clear implicits.
Arguments action_fn : clear implicits.
Arguments transfn_fn : clear implicits.

Arguments mk_transition {ctx local}.
Arguments mk_driver {ctx}.

(** ** Predicates on tables *)

Section Tables.

Context {ctx local : Type}.

(** [P] holds of a row and of every row of the sub-machines below it. *)
Fixpoint deep (P : transition ctx local -> Prop) (t : transition ctx local)
  : Prop :=
  P t /\
  match t with
  | mk_transition _ _ _ (Some sub) _ _ _ _ _ _ _ =>
      fold_right (fun u acc => deep P u /\ acc) True sub
  | mk_transition _ _ _ None _ _ _ _ _ _ _ => True
  end.

(** How deep sub-machines are nested below a row. *)
Fixpoint depth (t : transition ctx local) : nat :=
  match t with
  | mk_transition _ _ _ (Some sub) _ _ _ _ _ _ _ =>
      S (fold_right (fun u acc => Nat.max (depth u) acc) O sub)
  | mk_transition _ _ _ None _ _ _ _ _ _ _ => O
  end.

Definition depth_table (rows : table ctx local) : nat :=
  fold_right (fun u acc => Nat.max (depth u) acc) O rows.

(** The array holds a sentinel row. *)
Definition has_sentinel (rows : table ctx local) : bool :=
  existsb (fun t => current_state t =? -1) rows.

(** A row whose successful matches consume at least one byte of [buf]: its
    literal is not empty, its predicate reports at least one byte and no
    more bytes than [buf] holds after the cursor; for a sub-machine row, the
    sub-table ends with a sentinel row. *)
Definition progresses (buf : input) (t : transition ctx local) : Prop :=
  match match_type t with
  | EXACT_STR => forall p, str t = Some p -> (0 < strlen p)%nat
  | FUNC =>
      forall f, action t = Some f ->
      forall d c, 0 <= fst (f buf d c (local_context t)) ->
        0 < fst (f buf d c (local_context t)) /\
        d + fst (f buf d c (local_context t))
        <= Z.of_nat (String.length (text buf))
  | FSM => forall sub, transition_table t = Some sub -> has_sentinel sub = true
  | _ => True
  end.

Definition well_formed (buf : input) (rows : table ctx local) : Prop :=
  has_sentinel rows = true /\ Forall (deep (progresses buf)) rows.

(** The callables of a row never take the context below where they found
    it, for an order [R] on contexts. *)
Definition inflationary (R : ctx -> ctx -> Prop) (t : transition ctx local)
  : Prop :=
  (forall f, action t = Some f ->
     forall buf d c, R c (snd (f buf d c (local_context t)))) /\
  (forall f, transfn t = Some f ->
     forall buf d c, R c (snd (f buf d c (local_context t)))).

(** *** Properties of the recursive call, as the matcher sees it *)

Definition sub_call : Type :=
  table ctx local -> input -> Z -> ctx -> res (Z * ctx).

(** The sub-run never takes the context below where it found it. *)
Definition sub_inflationary (R : ctx -> ctx -> Prop) (run_sub : sub_call)
  : Prop :=
  forall sub buf d c r,
    Forall (deep (inflationary R)) sub ->
    run_sub sub buf d c = Ok r -> R c (snd r).

(** The callback of the row leaves the cursor where it found it. *)
Definition cursor_kept (t : transition ctx local) : Prop :=
  forall f, transfn t = Some f ->
  forall buf d c, fst (f buf d c (local_context t)) = d.

(** A row that makes progress and whose callback leaves the cursor alone. *)
Definition steady (buf : input) (t : transition ctx local) : Prop :=
  progresses buf t /\ cursor_kept t.

(** A successful sub-run that starts inside [buf] has consumed at least one
    byte of [buf] and no more than [buf] holds after the cursor. *)
Definition sub_progresses (buf : input) (run_sub : sub_call) : Prop :=
  forall sub d c r,
    Forall (deep (steady buf)) sub ->
    0 <= d <= Z.of_nat (String.length (text buf)) ->
    run_sub sub buf d c = Ok r -> 0 <= fst r ->
    1 <= fst r /\ d + fst r <= Z.of_nat (String.length (text buf)).

(** [rs2] returns whatever [rs1] returns. *)
Definition refines (rs1 rs2 : sub_call) : Prop :=
  forall sub b d c r, rs1 sub b d c = Ok r -> rs2 sub b d c = Ok r.

(** The sub-runs a row can start on [buf] return. *)
Definition subs_return (buf : input) (t : transition ctx local) : Prop :=
  match_type t = FSM ->
  forall sub, transition_table t = Some sub ->
  forall d c, 0 <= d <= Z.of_nat (String.length (text buf)) ->
              exists fuel r, sub_run fuel sub buf d c = Ok r.

(** The context a pass is left with. *)
Definition exit_context (e : scan_exit ctx) : ctx :=
  match e with
  | Aborted _ _ c => c
  | Broke _ st' => context_of st'
  | Exhausted st' => context_of st'
  end.

(** What the exit [e] of a pass over [rows] that started in [st] tells: a
    pass in which nothing fired has left total, flag and cursor alone; a
    pass left at a row that fired has added the length [n] of that row's
    attempt, an attempt made at the cursor the pass started with, to the
    total and to the cursor as the callback of the row left it. *)
Definition exit_spec (run_sub : sub_call) (rows : table ctx local)
  (buf : input) (st : driver ctx) (e : scan_exit ctx) : Prop :=
  match e with
  | Exhausted st' =>
      nbytes_processed st' = nbytes_processed st /\
      in_accept st' = in_accept st /\
      data_ptr st' = data_ptr st
  | Broke n st' =>
      0 <= n /\
      nbytes_processed st' = int_wrap (nbytes_processed st + n) /\
      exists t c0 c1,
        In t rows /\ type t <> REJECT /\
        run_transition run_sub t buf (data_ptr st) c0 = Ok (n, c1) /\
        data_ptr st' = fst (call_transfn t buf (data_ptr st) c1) + n /\
        context_of st' = snd (call_transfn t buf (data_ptr st) c1) /\
        cur_state st' = state_pass t /\
        (in_accept st' = true <-> type t = ACCEPT)
  | Aborted n d' c' =>
      0 <= n /\
      exists t c0 c1,
        In t rows /\ type t = REJECT /\
        run_transition run_sub t buf (data_ptr st) c0 = Ok (n, c1) /\
        d' = fst (call_transfn t buf (data_ptr st) c1) + n /\
        c' = snd (call_transfn t buf (data_ptr st) c1)
  end.

(** *** Shapes of rows *)

(** The field the match kind of the row needs is NULL, or the match kind is
    none of the four. *)
Definition malformed (t : transition ctx local) : Prop :=
  match match_type t with
  | EXACT_STR | SINGLE_CHR => str t = None
  | FSM => transition_table t = None
  | FUNC => action t = None
  | INVALID_MATCH => True
  end.

(** The sub-table of a sub-machine row holds a sentinel row. *)
Definition terminated_row (t : transition ctx local) : Prop :=
  match_type t = FSM ->
  forall sub, transition_table t = Some sub -> has_sentinel sub = true.

(** The table and every sub-table below it hold a sentinel row. *)
Definition terminated (rows : table ctx local) : Prop :=
  has_sentinel rows = true /\ Forall (deep terminated_row) rows.

(** No callable is attached to the row. *)
Definition no_callables (t : transition ctx local) : Prop :=
  action t = None /\ transfn t = None.

(** The row calls no predicate. *)
Definition no_predicate (t : transition ctx local) : Prop :=
  match_type t = FUNC -> action t = None.

(** The row calls no predicate and its callback leaves the cursor alone. *)
Definition tame (t : transition ctx local) : Prop :=
  no_predicate t /\ cursor_kept t.

End Tables.

(** The sum of the committed lengths. *)
Definition total (ns : list Z) : Z := fold_right Z.add 0 ns.

(** ** Concrete inputs and tables

    The inputs of the examples are strings with the byte '?' everywhere in
    memory around them. The context of the examples is a log: a recording
    callback appends the cursor it was handed and the row's local data. *)

Definition c_string (s : string) : input := mk_input s (fun _ => "?"%char).

Coercion c_string : string >-> input.

Bind Scope string_scope with input.

Local Open Scope string_scope.

Abbreviation log := (list (Z * nat)) (only parsing).

Definition record_cb : transfn_fn log nat :=
  fun _ data context l => (data, (context ++ [(data, l)])%list).

(** A callback that records and then moves the cursor one byte on. *)
Definition skip_cb : transfn_fn log nat :=
  fun _ data context l => (data + 1, (context ++ [(data, l)])%list).

(** A callback that puts the cursor back to the start of the input. *)
Definition rewind_cb : transfn_fn log nat :=
  fun _ _ context _ => (0, context).



(** An EXACT_STR row. *)
Definition row_str (s : Z) (p : string) (pass fail : Z) (k : state_kind)
  (cb : option (transfn_fn log nat)) (l : nat) : transition log nat :=
  mk_transition s EXACT_STR (Some p) None None l pass fail k cb None.

(** A SINGLE_CHR row. *)
Definition row_chr (s : Z) (p : string) (pass fail : Z) (k : state_kind)
  : transition log nat :=
  mk_transition s SINGLE_CHR (Some p) None None O pass fail k None None.

(** A sub-machine row. *)
Definition row_fsm (s : Z) (sub : table log nat) (pass fail : Z)
  (k : state_kind) : transition log nat :=
  mk_transition s FSM None (Some sub) None O pass fail k None None.

(** A predicate row. *)
Definition row_func (s : Z) (f : action_fn log nat) (pass fail : Z)
  (k : state_kind) : transition log nat :=
  mk_transition s FUNC None None (Some f) O pass fail k None None.

(** The sentinel row that ends a table. *)
Definition sentinel : transition log nat :=
  mk_transition (-1) INVALID_MATCH None None None O (-1) (-1) NORMAL None None.

(** "ab" from state 0, routed to an accept state. *)
Definition tbl_ab : table log nat :=
  [ row_str 0 "ab" 1 (-1) ACCEPT None 0; sentinel ].

(** A byte class. *)
Definition tbl_xyz : table log nat :=
  [ row_chr 0 "xyz" 1 (-1) ACCEPT; sentinel ].

(** A fail-redirect to state 5, with a row for state 5 before it, and a row
    for state 0 and another row for state 5 after it. *)
Definition tbl_redirect : table log nat :=
  [ row_str 5 "a" 9 (-1) ACCEPT None 3;
    row_str 0 "x" 1 5 NORMAL None 0;
    row_str 0 "a" 1 (-1) ACCEPT None 1;
    row_str 5 "a" 2 (-1) ACCEPT None 2;
    sentinel ].

(** "a" is committed, then "b" leads to a reject state; both rows record. *)
Definition tbl_reject : table log nat :=
  [ row_str 0 "a" 1 (-1) NORMAL (Some record_cb) 7;
    row_str 1 "b" 2 (-1) REJECT (Some record_cb) 8;
    sentinel ].

(** "a" is committed to a normal state from which nothing leaves. *)
Definition tbl_dead_end : table log nat :=
  [ row_str 0 "a" 1 (-1) NORMAL None 0; sentinel ].

(** An empty literal. *)
Definition row_empty : transition log nat :=
  row_str 0 "" 1 (-1) ACCEPT None 0.

Definition tbl_empty : table log nat := [ row_empty; sentinel ].

(** A sub-machine "abc" whose first row records, used from an outer table. *)
Definition tbl_abc : table log nat :=
  [ row_str 0 "a" 1 (-1) NORMAL (Some record_cb) 1;
    row_str 1 "b" 2 (-1) NORMAL None 0;
    row_str 2 "c" 3 (-1) ACCEPT None 0;
    sentinel ].

Definition tbl_outer : table log nat :=
  [ row_fsm 0 tbl_abc 1 (-1) ACCEPT;
    row_str 0 "a" 1 (-1) ACCEPT (Some record_cb) 2;
    sentinel ].

(** A predicate that matches the empty prefix, looping on state 0. *)
Definition zero_pred : action_fn log nat := fun _ _ context _ => (0, context).

Definition tbl_loop_pred : table log nat :=
  [ row_func 0 zero_pred 0 (-1) NORMAL; sentinel ].

(** An empty literal looping on state 0. *)
Definition tbl_loop_empty : table log nat :=
  [ row_str 0 "" 0 (-1) NORMAL None 0; sentinel ].

(** A negative on-failure state other than -1. *)
Definition tbl_neg_fail : table log nat :=
  [ row_str 0 "x" 1 (-7) NORMAL None 0;
    row_str 0 "a" 1 (-1) ACCEPT None 1;
    sentinel ].

(** A row "a" whose callback moves the cursor one byte on. *)
Definition tbl_skip : table log nat :=
  [ row_str 0 "a" 1 (-1) ACCEPT (Some skip_cb) 4; sentinel ].

(** A row "a" that leads back to state 0 and whose callback rewinds the
    cursor. *)
Definition tbl_rewind : table log nat :=
  [ row_str 0 "a" 0 (-1) NORMAL (Some rewind_cb) 0; sentinel ].


Local Close Scope string_scope.

(** * Properties *)

(** ** Unfolding the driver *)

Section Driver.

Context {ctx local : Type}.

Implicit Types (t u : transition ctx local) (rows rest pre : table ctx local).
Implicit Types (st : driver ctx) (buf : input) (c : ctx) (fuel : nat).

(** One more iteration of the [while] loop. *)
Lemma run_loop_S fuel rows buf st :
  0 <= cur_state st ->
  run_loop (S fuel) rows buf st =
  (e <- scan (sub_run fuel) rows buf st ;;
   match e with
   | Aborted _ d c => Ok (-1, d, c)
   | Broke _ st' => run_loop fuel rows buf st'
   | Exhausted st' => run_loop fuel rows buf (halt st')
   end).
Proof.
  intros Hs. cbn [run_loop].
  destruct (cur_state st >=? 0) eqn:E; [reflexivity|].
  rewrite Z.geb_leb, Z.leb_gt in E. lia.
Qed.

(** The loop condition fails: the function returns. *)
Lemma run_loop_halted fuel rows buf st :
  cur_state st < 0 -> run_loop fuel rows buf st = Ok (finish st).
Proof.
  intros Hs.
  assert (E : (cur_state st >=? 0) = false)
    by (rewrite Z.geb_leb, Z.leb_gt; lia).
  destruct fuel; cbn [run_loop]; rewrite E; reflexivity.
Qed.

Section Scan.

Variable run_sub : table ctx local -> input -> Z -> ctx -> res (Z * ctx).

(** The sentinel row ends the pass. *)
Lemma scan_sentinel t rest buf st :
  current_state t = -1 -> scan run_sub (t :: rest) buf st = Ok (Exhausted st).
Proof. intros H. cbn [scan]. rewrite H. reflexivity. Qed.

(** A row for another state is passed over. *)
Lemma scan_skip t rest buf st :
  current_state t <> -1 -> cur_state st <> current_state t ->
  scan run_sub (t :: rest) buf st = scan run_sub rest buf st.
Proof.
  intros H1 H2. cbn [scan].
  destruct (Z.eqb_spec (current_state t) (-1)); [contradiction|].
  destruct (Z.eqb_spec (cur_state st) (current_state t)); [contradiction|].
  reflexivity.
Qed.

(** Rows for other states in front of a row are passed over. *)
Lemma scan_skip_prefix pre rows buf st :
  Forall (fun u => current_state u <> -1 /\ cur_state st <> current_state u) pre ->
  scan run_sub (pre ++ rows) buf st = scan run_sub rows buf st.
Proof.
  induction 1 as [|u pre [H1 H2] _ IH]; [reflexivity|].
  rewrite <- app_comm_cons, scan_skip by assumption. exact IH.
Qed.

(** An eligible row whose attempt fails. *)
Lemma scan_row_fail t rest buf st n c :
  current_state t <> -1 -> cur_state st = current_state t ->
  run_transition run_sub t buf (data_ptr st) (context_of st) = Ok (n, c) ->
  n < 0 ->
  scan run_sub (t :: rest) buf st = scan run_sub rest buf (fail_redirect t st c).
Proof.
  intros H1 H2 H3 H4. cbn [scan].
  destruct (Z.eqb_spec (current_state t) (-1)); [contradiction|].
  destruct (Z.eqb_spec (cur_state st) (current_state t)); [|contradiction].
  rewrite H3. cbn [bind fst snd].
  destruct (n >=? 0) eqn:E; [|reflexivity].
  rewrite Z.geb_leb, Z.leb_le in E. lia.
Qed.

(** An eligible row whose attempt succeeds. *)
Lemma scan_row_pass t rest buf st n c :
  current_state t <> -1 -> cur_state st = current_state t ->
  run_transition run_sub t buf (data_ptr st) (context_of st) = Ok (n, c) ->
  0 <= n ->
  scan run_sub (t :: rest) buf st =
  Ok (let called := call_transfn t buf (data_ptr st) c in
      match type t with
      | ACCEPT =>
          Broke n (mk_driver (state_pass t)
                             (int_wrap (nbytes_processed st + n)) true
                             (fst called + n) (snd called))
      | REJECT => Aborted n (fst called + n) (snd called)
      | NORMAL =>
          Broke n (mk_driver (state_pass t)
                             (int_wrap (nbytes_processed st + n)) false
                             (fst called + n) (snd called))
      end).
Proof.
  intros H1 H2 H3 H4. cbn [scan].
  destruct (Z.eqb_spec (current_state t) (-1)); [contradiction|].
  destruct (Z.eqb_spec (cur_state st) (current_state t)); [|contradiction].
  rewrite H3. cbn [bind fst snd].
  destruct (n >=? 0) eqn:E.
  - destruct (type t); reflexivity.
  - rewrite Z.geb_leb, Z.leb_gt in E. lia.
Qed.

End Scan.

End Driver.

(** Closes the side conditions of a statement instantiated at a concrete
    table: they evaluate. *)
Ltac by_eval :=
  first [ reflexivity
        | cbn; lia
        | cbn; discriminate
        | vm_compute; intuition (discriminate || lia) ].

(** ** The examples of the specification *)

(** "ab" against "abcd", routed to an accept state: 2 bytes, result 2. *)
Example run_ab_abcd : run_fsm 2 tbl_ab "abcd" 0 [] = Ok (2, 2, []).
Proof. reflexivity. Qed.

(** The class "xyz" against an input that starts with 'y': 1 byte. *)
Example run_xyz_y : run_fsm 2 tbl_xyz "yq" 0 [] = Ok (1, 1, []).
Proof. reflexivity. Qed.

(** A sub-machine that fails in its state 2 leaves the outer cursor at 0,
    and what its callback recorded stays in the context. *)
Example run_outer_sub_fails :
  run_fsm 4 [row_fsm 0 tbl_abc 1 (-1) ACCEPT; sentinel] "abx" 0 []
  = Ok (-1, 0, [(0, 1%nat)]).
Proof. reflexivity. Qed.

(** ** Fail-redirects *)

(** C1. When the pass is at an eligible row [t] (rows [rest] still ahead),
    the attempt on [t] fails and the on-failure state of [t] is not the
    no-redirect sentinel (it is non-negative), the driver takes that state
    as its current state and the same pass goes on with the next row: the
    rest of the table is scanned with the new state, so a following row that
    is not for the new state (a row for the old state, say) is passed over.
    The pass is neither restarted nor ended. *)
Theorem fail_redirect_continues_same_pass {ctx local : Type} (fuel : nat)
  (t : transition ctx local) (rest : table ctx local) (buf : input)
  (st : driver ctx) (n : Z) (c : ctx) :
  current_state t <> -1 ->
  cur_state st = current_state t ->
  run_transition (sub_run fuel) t buf (data_ptr st) (context_of st) = Ok (n, c) ->
  n < 0 ->
  0 <= state_fail t ->
  let st' := mk_driver (state_fail t) (nbytes_processed st) (in_accept st)
                       (data_ptr st) c in
  scan (sub_run fuel) (t :: rest) buf st = scan (sub_run fuel) rest buf st' /\
  (forall u rest', rest = u :: rest' ->
     current_state u <> -1 -> state_fail t <> current_state u ->
     scan (sub_run fuel) (t :: rest) buf st = scan (sub_run fuel) rest' buf st').
Proof.
  intros H1 H2 H3 H4 H5 st'.
  assert (E : fail_redirect t st c = st').
  { unfold fail_redirect, st'.
    destruct (state_fail t >=? 0) eqn:G; [reflexivity|].
    rewrite Z.geb_leb, Z.leb_gt in G. lia. }
  assert (R : scan (sub_run fuel) (t :: rest) buf st
              = scan (sub_run fuel) rest buf st').
  { rewrite <- E. eapply scan_row_fail; eassumption. }
  split; [exact R|].
  intros u rest' -> Hu1 Hu2. rewrite R.
  apply scan_skip; [assumption|exact Hu2].
Qed.

(** On "a", the row "x" of state 0 fails and redirects to state 5; the row
    "a" of state 0 is then passed over and the row "a" of state 5 that comes
    after it fires, leading to state 2. The row of state 5 at the head of
    the table, which leads to state 9, is not gone back to. *)
Lemma fail_redirect_continues_same_pass_witness :
  scan (sub_run 0) tbl_redirect "a" (init_driver 0 [])
  = Ok (Broke 1 (mk_driver 2 1 true 1 [])).
Proof.
  unfold tbl_redirect.
  rewrite scan_skip by by_eval.
  rewrite (proj1 (fail_redirect_continues_same_pass 0
                    (row_str 0 "x" 1 5 NORMAL None 0) _ "a"
                    (init_driver 0 []) (-1) []
                    ltac:(by_eval) ltac:(by_eval) ltac:(by_eval)
                    ltac:(by_eval) ltac:(by_eval))).
  reflexivity.
Defined.

(** C10. When the attempt on an eligible row fails, the redirect is applied
    exactly when the on-failure state is non-negative: with a non-negative
    value the pass goes on in that state, with any negative value (not only
    -1) it goes on in the unchanged state. *)
Theorem fail_redirect_iff_nonnegative {ctx local : Type} (fuel : nat)
  (t : transition ctx local) (rest : table ctx local) (buf : input)
  (st : driver ctx) (n : Z) (c : ctx) :
  current_state t <> -1 ->
  cur_state st = current_state t ->
  run_transition (sub_run fuel) t buf (data_ptr st) (context_of st) = Ok (n, c) ->
  n < 0 ->
  (0 <= state_fail t ->
   scan (sub_run fuel) (t :: rest) buf st
   = scan (sub_run fuel) rest buf
       (mk_driver (state_fail t) (nbytes_processed st) (in_accept st)
                  (data_ptr st) c)) /\
  (state_fail t < 0 ->
   scan (sub_run fuel) (t :: rest) buf st
   = scan (sub_run fuel) rest buf
       (mk_driver (cur_state st) (nbytes_processed st) (in_accept st)
                  (data_ptr st) c)).
Proof.
  intros H1 H2 H3 H4.
  rewrite (scan_row_fail _ t rest buf st n c H1 H2 H3 H4).
  unfold fail_redirect.
  split; intros H5; destruct (state_fail t >=? 0) eqn:G;
    rewrite Z.geb_leb in G;
    try reflexivity;
    [ rewrite Z.leb_gt in G | rewrite Z.leb_le in G ]; lia.
Qed.

(** An on-failure state of -7 is ignored: the row "a" of state 0 still
    fires in state 0. *)
Lemma fail_redirect_iff_nonnegative_witness :
  scan (sub_run 0) tbl_neg_fail "a" (init_driver 0 [])
  = Ok (Broke 1 (mk_driver 1 1 true 1 [])).
Proof.
  unfold tbl_neg_fail.
  rewrite (proj2 (fail_redirect_iff_nonnegative 0
                    (row_str 0 "x" 1 (-7) NORMAL None 0) _ "a"
                    (init_driver 0 []) (-1) []
                    ltac:(by_eval) ltac:(by_eval) ltac:(by_eval)
                    ltac:(by_eval)) ltac:(by_eval)).
  reflexivity.
Defined.

(** ** Successful transitions *)

(** C2. Take a pass that started in driver state [st0] (whatever consumed
    total and accept flag earlier transitions left there) and has reached,
    in driver state [st], an eligible row [t] of kind REJECT whose attempt
    succeeds. The scan is left at that row whatever rows follow it, and
    [run_fsm] returns -1 from that very iteration: the total in [st0] is not
    reported. The cursor and the context are as the callback of the row (if
    it has one) left them, the cursor advanced by the matched length. *)
Theorem reject_aborts_run {ctx local : Type} (fuel : nat)
  (pre : table ctx local) (t : transition ctx local) (rest : table ctx local)
  (buf : input) (st0 st : driver ctx) (n : Z) (c : ctx) :
  0 <= cur_state st0 ->
  scan (sub_run fuel) (pre ++ t :: rest) buf st0
  = scan (sub_run fuel) (t :: rest) buf st ->
  current_state t <> -1 ->
  cur_state st = current_state t ->
  run_transition (sub_run fuel) t buf (data_ptr st) (context_of st) = Ok (n, c) ->
  0 <= n ->
  type t = REJECT ->
  (forall rest',
     scan (sub_run fuel) (t :: rest') buf st
     = Ok (Aborted n (fst (call_transfn t buf (data_ptr st) c) + n)
                   (snd (call_transfn t buf (data_ptr st) c)))) /\
  run_loop (S fuel) (pre ++ t :: rest) buf st0
  = Ok (-1, fst (call_transfn t buf (data_ptr st) c) + n,
        snd (call_transfn t buf (data_ptr st) c)).
Proof.
  intros H0 Hreach H1 H2 H3 H4 H5.
  assert (R : forall rest',
             scan (sub_run fuel) (t :: rest') buf st
             = Ok (Aborted n (fst (call_transfn t buf (data_ptr st) c) + n)
                           (snd (call_transfn t buf (data_ptr st) c)))).
  { intros rest'. rewrite (scan_row_pass _ t rest' buf st n c H1 H2 H3 H4).
    cbv zeta. rewrite H5. reflexivity. }
  split; [exact R|].
  rewrite run_loop_S by assumption.
  rewrite Hreach, R. reflexivity.
Qed.

(** On "ab" the first row of [tbl_reject] commits one byte; the next
    iteration starts with a total of 1, reaches the REJECT row "b", and the
    run returns -1. *)
Lemma reject_aborts_run_witness :
  run_loop 1 tbl_reject "ab" (mk_driver 1 1 false 1 [(0, 7%nat)])
  = Ok (-1, 2, [(0, 7%nat); (1, 8%nat)]) /\
  run_fsm 2 tbl_reject "ab" 0 [] = Ok (-1, 2, [(0, 7%nat); (1, 8%nat)]).
Proof.
  split; [|reflexivity].
  exact (proj2 (reject_aborts_run 0
                  [row_str 0 "a" 1 (-1) NORMAL (Some record_cb) 7]
                  (row_str 1 "b" 2 (-1) REJECT (Some record_cb) 8)
                  [sentinel] "ab"
                  (mk_driver 1 1 false 1 [(0, 7%nat)])
                  (mk_driver 1 1 false 1 [(0, 7%nat)])
                  1 [(0, 7%nat)]
                  ltac:(by_eval) ltac:(by_eval) ltac:(by_eval) ltac:(by_eval)
                  ltac:(by_eval) ltac:(by_eval) ltac:(by_eval))).
Defined.

(** C8. When the attempt on an eligible row [t] succeeds with length [n]
    and context [c], and a callback [f] is attached to [t], then [f] is
    called on the cursor as it stands before the advance, on [c] and on the
    local data of [t]; the scan is left with the context [f] returned, and
    only then are the cursor, as [f] left it, and the consumed total
    advanced by [n]. *)
Theorem transfn_called_before_advance {ctx local : Type} (fuel : nat)
  (t : transition ctx local) (rest : table ctx local) (buf : input)
  (st : driver ctx) (n : Z) (c : ctx) (f : transfn_fn ctx local) :
  current_state t <> -1 ->
  cur_state st = current_state t ->
  run_transition (sub_run fuel) t buf (data_ptr st) (context_of st) = Ok (n, c) ->
  0 <= n ->
  transfn t = Some f ->
  let called := f buf (data_ptr st) c (local_context t) in
  scan (sub_run fuel) (t :: rest) buf st =
  Ok (match type t with
      | ACCEPT => Broke n (mk_driver (state_pass t)
                                     (int_wrap (nbytes_processed st + n))
                                     true (fst called + n) (snd called))
      | REJECT => Aborted n (fst called + n) (snd called)
      | NORMAL => Broke n (mk_driver (state_pass t)
                                     (int_wrap (nbytes_processed st + n))
                                     false (fst called + n) (snd called))
      end).
Proof.
  intros H1 H2 H3 H4 H5 called.
  rewrite (scan_row_pass _ t rest buf st n c H1 H2 H3 H4).
  unfold call_transfn. rewrite H5. reflexivity.
Qed.

(** With the cursor at 3, the recording callback of a row "b" logs 3, not 4. *)
Lemma transfn_called_before_advance_witness :
  scan (sub_run 0) [row_str 1 "b" 2 (-1) NORMAL (Some record_cb) 8; sentinel]
       "xyzb" (mk_driver 1 10 true 3 [])
  = Ok (Broke 1 (mk_driver 2 11 false 4 [(3, 8%nat)])).
Proof.
  exact (transfn_called_before_advance 0
           (row_str 1 "b" 2 (-1) NORMAL (Some record_cb) 8) [sentinel] "xyzb"
           (mk_driver 1 10 true 3 []) 1 [] record_cb
           ltac:(by_eval) ltac:(by_eval) ltac:(by_eval) ltac:(by_eval)
           ltac:(by_eval)).
Defined.

(** ** The context is threaded, never restored *)

Section Deep.

Context {ctx local : Type}.

Variable P : transition ctx local -> Prop.

Lemma deep_here (t : transition ctx local) : deep P t -> P t.
Proof. destruct t; intros [H _]; exact H. Qed.

Lemma deep_sub (t : transition ctx local) (sub : table ctx local) :
  deep P t -> transition_table t = Some sub -> Forall (deep P) sub.
Proof.
  destruct t as [s k p tt a l sp sf ty cb nm]. cbn [transition_table].
  intros [_ H] ->.
  induction sub as [|u sub IH]; constructor.
  - exact (proj1 H).
  - exact (IH (proj2 H)).
Qed.

End Deep.

Section Inflation.

Context {ctx local : Type}.

Variable R : ctx -> ctx -> Prop.
Hypothesis R_refl : forall c, R c c.
Hypothesis R_trans : forall a b c, R a b -> R b c -> R a c.

Lemma run_transition_inflationary run_sub (t : transition ctx local) buf d c r :
  sub_inflationary R run_sub ->
  deep (inflationary R) t ->
  run_transition run_sub t buf d c = Ok r -> R c (snd r).
Proof.
  intros Hsub Ht. unfold run_transition.
  destruct (match_type t).
  - destruct (str t); [destruct (memcmp_eq _ _ _ _)|];
      intros [= <-]; apply R_refl.
  - destruct (str t); [destruct (existsb _ _)|];
      intros [= <-]; apply R_refl.
  - destruct (transition_table t) as [sub|] eqn:E.
    + apply Hsub. eapply deep_sub; eassumption.
    + intros [= <-]; apply R_refl.
  - destruct (action t) as [f|] eqn:E.
    + intros [= <-]. apply (proj1 (deep_here _ _ Ht) f E).
    + intros [= <-]; apply R_refl.
  - intros [= <-]; apply R_refl.
Qed.

Lemma call_transfn_inflationary (t : transition ctx local) buf d c :
  deep (inflationary R) t -> R c (snd (call_transfn t buf d c)).
Proof.
  intros Ht. unfold call_transfn.
  destruct (transfn t) as [f|] eqn:E; [|apply R_refl].
  apply (proj2 (deep_here _ _ Ht) f E).
Qed.

Lemma scan_inflationary run_sub (rows : table ctx local) buf st e :
  sub_inflationary R run_sub ->
  Forall (deep (inflationary R)) rows ->
  scan run_sub rows buf st = Ok e -> R (context_of st) (exit_context e).
Proof.
  intros Hsub Hrows. revert st.
  induction Hrows as [|t rows Ht _ IH]; intros st; cbn [scan]; [discriminate|].
  destruct (current_state t =? -1); [intros [= <-]; apply R_refl|].
  destruct (cur_state st =? current_state t); [|apply IH].
  destruct (run_transition run_sub t buf (data_ptr st) (context_of st))
    as [[n c]| |] eqn:E; cbn [bind fst snd]; try discriminate.
  pose proof (run_transition_inflationary _ _ _ _ _ _ Hsub Ht E) as Hc.
  cbn [snd] in Hc.
  destruct (n >=? 0).
  - pose proof (call_transfn_inflationary t buf (data_ptr st) c Ht) as Hc'.
    destruct (type t); intros [= <-]; cbn [exit_context context_of];
      eapply R_trans; eassumption.
  - intros H. apply IH in H. cbn [fail_redirect context_of] in H.
    eapply R_trans; eassumption.
Qed.

Lemma run_loop_inflationary fuel :
  forall (rows : table ctx local) buf st r,
    Forall (deep (inflationary R)) rows ->
    run_loop fuel rows buf st = Ok r -> R (context_of st) (snd r).
Proof.
  induction fuel as [|fuel IH]; intros rows buf st r Hrows; cbn [run_loop];
    destruct (cur_state st >=? 0);
    try discriminate; try (intros [= <-]; apply R_refl).
  assert (Hsub : sub_inflationary R (@sub_run ctx local fuel)).
  { intros sub b d c r0 Hs. unfold sub_run, run_fsm.
    destruct (run_loop fuel sub b (init_driver d c)) as [r1| |] eqn:E;
      cbn [bind]; try discriminate.
    intros [= <-]. cbn [snd]. exact (IH _ _ _ _ Hs E). }
  change (fun sub b d c =>
            r0 <- run_loop fuel sub b (init_driver d c) ;;
            Ok (fst (fst r0), snd r0))
    with (@sub_run ctx local fuel).
  destruct (scan (sub_run fuel) rows buf st) as [e| |] eqn:E;
    cbn [bind]; try discriminate.
  pose proof (scan_inflationary _ _ _ _ _ Hsub Hrows E) as He.
  destruct e as [n d c|n st'|st']; cbn [exit_context] in He.
  - intros [= <-]. exact He.
  - intros H. eapply R_trans; [exact He|]. exact (IH _ _ _ _ Hrows H).
  - intros H. eapply R_trans; [exact He|].
    exact (IH _ _ _ _ Hrows H).
Qed.

End Inflation.






(** ** What a pass does to the driver *)

Section Pass.

Context {ctx local : Type}.

Variable run_sub : table ctx local -> input -> Z -> ctx -> res (Z * ctx).

Lemma exit_spec_cons (t : transition ctx local) rows buf st st1 e :
  nbytes_processed st1 = nbytes_processed st ->
  in_accept st1 = in_accept st ->
  data_ptr st1 = data_ptr st ->
  exit_spec run_sub rows buf st1 e ->
  exit_spec run_sub (t :: rows) buf st e.
Proof.
  intros E1 E2 E3 H. unfold exit_spec in *. rewrite E1, E2, E3 in H.
  destruct e as [n d' c'|n st'|st']; [| |exact H].
  - destruct H as (A & u & c0 & c1 & I & H).
    split; [exact A|]. exists u, c0, c1. split; [now right|exact H].
  - destruct H as (A & B & u & c0 & c1 & I & H).
    split; [exact A|]. split; [exact B|].
    exists u, c0, c1. split; [now right|exact H].
Qed.

Lemma scan_exit_spec (rows : table ctx local) buf st e :
  scan run_sub rows buf st = Ok e -> exit_spec run_sub rows buf st e.
Proof.
  revert st. induction rows as [|t rows IH]; intros st; cbn [scan];
    [discriminate|].
  destruct (current_state t =? -1).
  { intros [= <-]. repeat split. }
  destruct (cur_state st =? current_state t);
    [|intros H; apply (exit_spec_cons t rows buf st st e); auto].
  destruct (run_transition run_sub t buf (data_ptr st) (context_of st))
    as [[n c]| |] eqn:E; cbn [bind fst snd]; try discriminate.
  destruct (n >=? 0) eqn:G.
  - rewrite Z.geb_leb, Z.leb_le in G.
    destruct (type t) eqn:K; intros [= <-]; cbn.
    + split; [exact G|]. split; [reflexivity|].
      exists t, (context_of st), c. rewrite K.
      repeat split; try (now left); try discriminate; assumption.
    + split; [exact G|]. split; [reflexivity|].
      exists t, (context_of st), c. rewrite K.
      repeat split; try (now left); try discriminate; assumption.
    + split; [exact G|]. exists t, (context_of st), c.
      repeat split; try (now left); assumption.
  - intros H.
    apply (exit_spec_cons t rows buf st (fail_redirect t st c) e); auto.
Qed.

End Pass.

(** ** The driver loop *)

(** C3. [run_fsm] enters its loop in state 0 with a zero total and the accept
    flag clear. With a negative current state the loop is over and the
    result is the consumed total if the accept flag is set and -1 otherwise.
    With a non-negative state one pass is made: if nothing fired, the state
    becomes -1 and the run returns by the flag it already had; if a row
    fired, the loop goes on from the state that row left. A row that fires
    (and is not of kind REJECT) leaves the flag set exactly when its kind is
    ACCEPT, whatever the flag was before. *)
Theorem run_accepts_by_last_transition {ctx local : Type} (fuel : nat)
  (rows : table ctx local) (buf : input) :
  (forall d c,
     run_fsm fuel rows buf d c
     = run_loop fuel rows buf (mk_driver 0 0 false d c)) /\
  (forall st,
     cur_state st < 0 ->
     run_loop fuel rows buf st
     = Ok (if in_accept st then nbytes_processed st else -1,
           data_ptr st, context_of st)) /\
  (forall st,
     0 <= cur_state st ->
     run_loop (S fuel) rows buf st
     = match scan (sub_run fuel) rows buf st with
       | Ok (Broke _ st') => run_loop fuel rows buf st'
       | Ok (Exhausted st') =>
           Ok (if in_accept st then nbytes_processed st else -1,
               data_ptr st', context_of st')
       | Ok (Aborted _ d c) => Ok (-1, d, c)
       | OutOfFuel => OutOfFuel
       | OutOfBounds => OutOfBounds
       end) /\
  (forall (t : transition ctx local) rest (st : driver ctx) n c,
     current_state t <> -1 ->
     cur_state st = current_state t ->
     run_transition (sub_run fuel) t buf (data_ptr st) (context_of st)
     = Ok (n, c) ->
     0 <= n ->
     type t <> REJECT ->
     exists st',
       scan (sub_run fuel) (t :: rest) buf st = Ok (Broke n st') /\
       cur_state st' = state_pass t /\
       nbytes_processed st' = int_wrap (nbytes_processed st + n) /\
       (in_accept st' = true <-> type t = ACCEPT)).
Proof.
  split; [reflexivity|]. split; [|split].
  - intros st Hs. rewrite run_loop_halted by assumption. reflexivity.
  - intros st Hs. rewrite run_loop_S by assumption.
    destruct (scan (sub_run fuel) rows buf st) as [e| |] eqn:E;
      cbn [bind]; try reflexivity.
    destruct e as [n d c|n st'|st']; try reflexivity.
    apply scan_exit_spec in E. destruct E as (E1 & E2 & E3).
    rewrite run_loop_halted by (cbn; lia).
    unfold finish, halt. cbn. rewrite E1, E2. reflexivity.
  - intros t rest st n c H1 H2 H3 H4 H5.
    rewrite (scan_row_pass _ t rest buf st n c H1 H2 H3 H4). cbv zeta.
    destruct (type t) eqn:K; try contradiction;
      eexists; (split; [reflexivity|]); cbn;
      repeat split; try discriminate; try reflexivity.
Qed.

(** "ab" against "abcd": the ACCEPT row fires, the next pass finds nothing
    for state 1, and the run returns the 2 bytes consumed. *)
Lemma run_accepts_by_last_transition_witness :
  run_fsm 2 tbl_ab "abcd" 0 [] = Ok (2, 2, []).
Proof.
  destruct (run_accepts_by_last_transition 1 tbl_ab "abcd")
    as (_ & _ & Hstep & _).
  destruct (run_accepts_by_last_transition 0 tbl_ab "abcd")
    as (_ & _ & Hlast & _).
  unfold run_fsm.
  rewrite (Hstep (init_driver 0 []) ltac:(by_eval)). cbn [scan].
  change (run_loop 1 tbl_ab "abcd" (mk_driver 1 2 true 2 [])
          = Ok (2, 2, [])).
  rewrite (Hlast (mk_driver 1 2 true 2 []) ltac:(by_eval)).
  reflexivity.
Defined.

(** ** The literal matcher *)

Lemma memcmp_eq_spec buf off p n :
  memcmp_eq buf off p n = true <->
  forall i, (i < n)%nat -> read buf (off + Z.of_nat i) = pattern_byte p i.
Proof.
  unfold memcmp_eq. rewrite forallb_forall. split.
  - intros H i Hi. apply Ascii.eqb_eq, H, in_seq. lia.
  - intros H i Hi. apply Ascii.eqb_eq, H. apply in_seq in Hi. lia.
Qed.

(** C5, as the code has it. For an EXACT_STR row: a NULL pattern fails; a
    pattern some byte of which differs from the input byte at the same
    distance from the cursor fails; a pattern all of whose bytes equal the
    input bytes at the cursor matches and consumes the pattern's length. An
    empty pattern is no failure: it matches anywhere and consumes 0 bytes.
    The context is left alone in every case. *)
Theorem exact_str_match {ctx local : Type}
  (run_sub : table ctx local -> input -> Z -> ctx -> res (Z * ctx))
  (t : transition ctx local) (buf : input) (d : Z) (c : ctx) :
  match_type t = EXACT_STR ->
  (str t = None -> run_transition run_sub t buf d c = Ok (-1, c)) /\
  (forall p, str t = Some p ->
     ((exists i, (i < strlen p)%nat /\
                 read buf (d + Z.of_nat i) <> pattern_byte p i) ->
      run_transition run_sub t buf d c = Ok (-1, c)) /\
     ((forall i, (i < strlen p)%nat ->
                 read buf (d + Z.of_nat i) = pattern_byte p i) ->
      run_transition run_sub t buf d c = Ok (Z.of_nat (strlen p), c)) /\
     (strlen p = O -> run_transition run_sub t buf d c = Ok (0, c))).
Proof.
  intros K. unfold run_transition. rewrite K. split.
  - intros ->. reflexivity.
  - intros p ->.
    assert (Hyes : (forall i, (i < strlen p)%nat ->
                      read buf (d + Z.of_nat i) = pattern_byte p i) ->
                   (if memcmp_eq buf d p (strlen p)
                    then Ok (Z.of_nat (strlen p), c)
                    else Ok (-1, c)) = Ok (Z.of_nat (strlen p), c)).
    { intros H. apply memcmp_eq_spec in H. rewrite H. reflexivity. }
    split; [|split].
    + intros (i & Hi & Hne).
      destruct (memcmp_eq buf d p (strlen p)) eqn:E; [|reflexivity].
      exfalso. apply Hne. exact (proj1 (memcmp_eq_spec _ _ _ _) E i Hi).
    + exact Hyes.
    + intros Z0. rewrite Hyes by (intros i Hi; lia).
      rewrite Z0. reflexivity.
Qed.

(** "ab" matches at the start of "abcd" and consumes 2 bytes. *)
Lemma exact_str_match_witness :
  run_transition (sub_run 0) (row_str 0 "ab" 1 (-1) ACCEPT None 0) "abcd" 0 []
  = Ok (2, []).
Proof.
  refine (proj1 (proj2 (proj2 (exact_str_match (sub_run 0)
            (row_str 0 "ab" 1 (-1) ACCEPT None 0) "abcd" 0 []
            ltac:(by_eval)) "ab"%string ltac:(by_eval))) _).
  intros [|[|i]] Hi; [reflexivity|reflexivity|cbn in Hi; lia].
Defined.

(** C5 as stated fails: an EXACT_STR row with the empty pattern does not
    fail; its attempt returns 0, which [run_fsm] takes as a match, and a run
    of the table made of that row accepts with nothing consumed. *)
Lemma exact_str_empty_pattern_matches :
  match_type row_empty = EXACT_STR /\
  str row_empty = Some ""%string /\
  run_transition (sub_run 0) row_empty "abcd" 0 [] = Ok (0, []) /\
  run_fsm 2 tbl_empty "abcd" 0 [] = Ok (0, 0, []).
Proof. repeat split. Qed.

(** ** The cursor *)

Lemma call_transfn_kept {ctx local : Type} (t : transition ctx local)
  buf d (c : ctx) :
  cursor_kept t -> fst (call_transfn t buf d c) = d.
Proof.
  intros Hk. unfold call_transfn.
  destruct (transfn t) as [f|] eqn:E; [|reflexivity].
  exact (Hk f E buf d c).
Qed.

(** C7, as the code has it. The attempts of a pass are made on the value
    of the cursor, which they cannot write: a pass in which every attempt
    failed leaves the cursor where it was. A sub-machine row hands the
    cursor value to [run_fsm]; where the sub-run leaves its own cursor is
    dropped, and only its result and the context come back. A pass left at
    a row that fired has run the callback of that row on the cursor itself
    and then added, to the cursor as the callback left it, exactly the
    length that row's attempt returned for the cursor the pass started
    with; for a row without a callback, or with one that leaves the cursor
    alone, the cursor has advanced by exactly that length. *)
Theorem matcher_works_on_cursor_copy {ctx local : Type} (fuel : nat)
  (rows : table ctx local) (buf : input) (st : driver ctx)
  (e : scan_exit ctx) :
  scan (sub_run fuel) rows buf st = Ok e ->
  match e with
  | Exhausted st' => data_ptr st' = data_ptr st
  | Broke n st' =>
      0 <= n /\
      exists t c0 c1,
        In t rows /\
        run_transition (sub_run fuel) t buf (data_ptr st) c0 = Ok (n, c1) /\
        data_ptr st' = fst (call_transfn t buf (data_ptr st) c1) + n /\
        (cursor_kept t -> data_ptr st' = data_ptr st + n)
  | Aborted n d' _ =>
      0 <= n /\
      exists t c0 c1,
        In t rows /\
        run_transition (sub_run fuel) t buf (data_ptr st) c0 = Ok (n, c1) /\
        d' = fst (call_transfn t buf (data_ptr st) c1) + n /\
        (cursor_kept t -> d' = data_ptr st + n)
  end /\
  (forall (t : transition ctx local) sub d c r d_sub c_sub,
     match_type t = FSM ->
     transition_table t = Some sub ->
     run_fsm fuel sub buf d c = Ok (r, d_sub, c_sub) ->
     run_transition (sub_run fuel) t buf d c = Ok (r, c_sub)).
Proof.
  intros H. split.
  - apply scan_exit_spec in H. unfold exit_spec in H.
    destruct e as [n d' c'|n st'|st'].
    + destruct H as (A & t & c0 & c1 & I & _ & Rn & D & _).
      split; [exact A|]. exists t, c0, c1.
      repeat split; try assumption.
      intros Hk. rewrite D, (call_transfn_kept t buf _ c1 Hk). reflexivity.
    + destruct H as (A & _ & t & c0 & c1 & I & _ & Rn & D & _).
      split; [exact A|]. exists t, c0, c1.
      repeat split; try assumption.
      intros Hk. rewrite D, (call_transfn_kept t buf _ c1 Hk). reflexivity.
    + apply H.
  - intros t sub d c r d_sub c_sub K E Hrun.
    unfold run_transition. rewrite K, E.
    unfold sub_run. rewrite Hrun. reflexivity.
Qed.

(** On "abx" the sub-machine "abc" fails in its state 2, after its own
    cursor has reached 2 and its first row has recorded; the outer pass goes
    on with the cursor still at 0, where the row "a" fires and records 0. *)
Lemma matcher_works_on_cursor_copy_witness :
  run_fsm 3 tbl_abc "abx" 0 [] = Ok (-1, 2, [(0, 1%nat)]) /\
  scan (sub_run 3) tbl_outer "abx" (init_driver 0 [])
  = Ok (Broke 1 (mk_driver 1 1 true 1 [(0, 1%nat); (0, 2%nat)])) /\
  0 <= 1.
Proof.
  split; [reflexivity|]. split; [reflexivity|].
  exact (proj1 (proj1 (matcher_works_on_cursor_copy 3 tbl_outer "abx"
                         (init_driver 0 []) _ eq_refl))).
Defined.

(** C7 as stated fails: the callback of the row "a" of [tbl_skip] is handed
    the cursor itself and moves it one byte on; the row matched 1 byte and
    the cursor has advanced by 2. *)
Lemma cursor_moved_by_callback :
  run_transition (sub_run 0) (row_str 0 "a" 1 (-1) ACCEPT (Some skip_cb) 4)
                 "aa" 0 [] = Ok (1, []) /\
  scan (sub_run 0) tbl_skip "aa" (init_driver 0 [])
  = Ok (Broke 1 (mk_driver 1 1 true 2 [(0, 4%nat)])) /\
  2 <> 0 + 1 /\
  run_fsm 2 tbl_skip "aa" 0 [] = Ok (1, 2, [(0, 4%nat)]).
Proof. repeat split; discriminate. Qed.

Lemma total_zero_iff ns :
  Forall (fun n => 0 <= n) ns ->
  (total ns = 0 <-> Forall (fun n => n = 0) ns).
Proof.
  induction 1 as [|n ns Hn Hns IH]; cbn.
  - split; [constructor|reflexivity].
  - assert (0 <= total ns).
    { clear IH. induction Hns; cbn; [lia|]. unfold total in *. lia. }
    unfold total in *. split.
    + intros E. constructor; [lia|]. apply IH. lia.
    + intros E. inversion E; subst. apply IH in H3. lia.
Qed.

(** *** Arithmetic of the consumed total *)

Lemma int_wrap_small z :
  -2147483648 <= z < 2147483648 -> int_wrap z = z.
Proof. intros H. unfold int_wrap. rewrite Z.mod_small; lia. Qed.

Lemma int_wrap_range z : -2147483648 <= int_wrap z < 2147483648.
Proof.
  unfold int_wrap.
  pose proof (Z.mod_pos_bound (z + 2147483648) 4294967296 ltac:(lia)). lia.
Qed.

Lemma int_wrap_add_l a b : int_wrap (int_wrap a + b) = int_wrap (a + b).
Proof.
  unfold int_wrap.
  replace ((a + 2147483648) mod 4294967296 - 2147483648 + b + 2147483648)
    with ((a + 2147483648) mod 4294967296 + b) by lia.
  rewrite Zplus_mod_idemp_l. f_equal. f_equal. lia.
Qed.

(** The cursor and the result of a run, by the lengths it committed. *)
Lemma run_loop_committed {ctx local : Type} (fuel : nat) :
  forall (rows : table ctx local) buf (st : driver ctx) r d' c',
    run_loop fuel rows buf st = Ok (r, d', c') ->
    Forall (fun n => 0 <= n) (committed fuel rows buf st) /\
    (Forall cursor_kept rows ->
     d' = data_ptr st + total (committed fuel rows buf st)) /\
    (int_wrap (nbytes_processed st) = nbytes_processed st ->
     r = -1 \/
     r = int_wrap (nbytes_processed st
                   + total (committed fuel rows buf st))).
Proof.
  induction fuel as [|fuel IH]; intros rows buf st r d' c';
    cbn [run_loop committed]; destruct (cur_state st >=? 0);
    try discriminate;
    try (unfold finish; intros [= <- <- <-]; cbn;
         split; [constructor|]; split; [intros _; lia|]; intros Hr;
         destruct (in_accept st);
         [right; rewrite Z.add_0_r; symmetry; exact Hr|left; reflexivity]).
  destruct (scan _ rows buf st) as [e| |] eqn:E; cbn [bind]; try discriminate.
  pose proof (scan_exit_spec _ _ _ _ _ E) as He. unfold exit_spec in He.
  destruct e as [n d1 c1|n st'|st'].
  - destruct He as (A & t & c0 & c2 & I & _ & _ & D & _).
    intros [= <- <- <-]. cbn.
    split; [repeat constructor; assumption|]. split; [|now left].
    intros Hk. rewrite Forall_forall in Hk.
    rewrite D, (call_transfn_kept t buf _ c2 (Hk t I)). lia.
  - destruct He as (A & B & t & c0 & c2 & I & _ & _ & D & _). intros H.
    destruct (IH _ _ _ _ _ _ H) as (F & Dd & Rr). cbn.
    split; [constructor; assumption|]. unfold total in *. split.
    + intros Hk. rewrite (Dd Hk), D.
      rewrite Forall_forall in Hk.
      rewrite (call_transfn_kept t buf _ c2 (Hk t I)). lia.
    + intros Hr. rewrite B in Rr.
      specialize (Rr (int_wrap_small _ (int_wrap_range _))).
      destruct Rr as [Rr|Rr]; [now left|right].
      rewrite Rr, int_wrap_add_l. f_equal. lia.
  - destruct He as (A & B & C). intros H.
    rewrite run_loop_halted in H by (cbn; lia).
    unfold finish, halt in H. cbn in H. injection H as <- <- <-. cbn.
    split; [constructor|]. split; [intros _; lia|]. intros Hr.
    rewrite B. destruct (in_accept st); [right|now left].
    rewrite A, Z.add_0_r. symmetry. exact Hr.
Qed.

(** C4, as the code has it. On a table whose callbacks leave the cursor
    where they found it, when [run_fsm] returns, with -1 or with a length,
    the caller's cursor stands at its value at entry plus the sum of the
    lengths of the transitions the run committed (a rejecting one
    included); a run that returns -1 hands the cursor back unchanged
    exactly when every committed length is 0, in particular when nothing
    was committed. The result, when it is not -1, is that sum as a 32-bit
    [int]. *)
Theorem cursor_advanced_by_committed {ctx local : Type} (fuel : nat)
  (rows : table ctx local) (buf : input) (d : Z) (c : ctx)
  (r d' : Z) (c' : ctx) :
  Forall cursor_kept rows ->
  run_fsm fuel rows buf d c = Ok (r, d', c') ->
  let ns := committed fuel rows buf (init_driver d c) in
  Forall (fun n => 0 <= n) ns /\
  d' = d + total ns /\
  (r = -1 \/ r = int_wrap (total ns)) /\
  (d' = d <-> Forall (fun n => n = 0) ns).
Proof.
  intros Hk H ns. unfold run_fsm in H.
  destruct (run_loop_committed _ _ _ _ _ _ _ H) as (F & D & Rr).
  fold ns in F, D, Rr. specialize (D Hk). specialize (Rr eq_refl).
  cbn in D, Rr.
  split; [exact F|]. split; [exact D|]. split; [exact Rr|].
  rewrite <- (total_zero_iff ns F). lia.
Qed.

Lemma tbl_reject_cursor_kept : Forall cursor_kept tbl_reject.
Proof.
  unfold tbl_reject.
  repeat (apply Forall_cons; [|]); try apply Forall_nil;
    intros f; cbn; try discriminate; intros [= <-] buf d c; reflexivity.
Qed.

(** [tbl_reject] on "ab" commits 1 and 1 and returns -1 with the cursor
    at 2. *)
Lemma cursor_advanced_by_committed_witness :
  committed 2 tbl_reject "ab" (init_driver 0 []) = [1; 1] /\
  2 = 0 + total (committed 2 tbl_reject "ab" (init_driver 0 [])).
Proof.
  split; [reflexivity|].
  exact (proj1 (proj2 (cursor_advanced_by_committed 2 tbl_reject "ab" 0 []
                         (-1) 2 [(0, 7%nat); (1, 8%nat)]
                         tbl_reject_cursor_kept eq_refl))).
Defined.

(** C4 as stated fails: on "ab", [tbl_dead_end] commits "a", finds no row
    for state 1 and returns -1 with the cursor advanced to 1; [tbl_reject]
    returns -1 from its REJECT row with the cursor advanced to 2. *)
Lemma cursor_moved_on_failure :
  run_fsm 2 tbl_dead_end "ab" 0 [] = Ok (-1, 1, []) /\ 1 <> 0 /\
  run_fsm 2 tbl_reject "ab" 0 [] = Ok (-1, 2, [(0, 7%nat); (1, 8%nat)]) /\
  2 <> 0.
Proof. repeat split; discriminate. Qed.

(** ** Termination *)

Lemma get_past_end s : forall n, (String.length s <= n)%nat -> String.get n s = None.
Proof.
  induction s as [|a s IH]; intros n Hn; [reflexivity|].
  destruct n as [|n]; cbn in *; [lia|]. apply IH. lia.
Qed.

(** A pattern byte counted by [strlen] is not NUL. *)
Lemma strlen_read p : forall i, (i < strlen p)%nat -> pattern_byte p i <> NUL.
Proof.
  induction p as [|a p IH]; intros i Hi; cbn in Hi; [lia|].
  destruct (Ascii.eqb_spec a NUL) as [E|E]; [lia|].
  destruct i as [|i]; [exact E|].
  unfold pattern_byte. cbn [String.get].
  apply (IH i). lia.
Qed.

(** Inside the string, [read] yields the bytes of the string. *)
Lemma read_inside buf i :
  0 <= i < Z.of_nat (String.length (text buf)) ->
  read buf i = pattern_byte (text buf) (Z.to_nat i).
Proof.
  intros H. unfold read.
  destruct (0 <=? i) eqn:A; [|apply Z.leb_gt in A; lia].
  destruct (i <? Z.of_nat (String.length (text buf))) eqn:B;
    [reflexivity|apply Z.ltb_ge in B; lia].
Qed.

(** Behind the string stands its terminator. *)
Lemma read_terminator buf :
  read buf (Z.of_nat (String.length (text buf))) = NUL.
Proof.
  unfold read. rewrite Z.ltb_irrefl, Bool.andb_false_r, Z.eqb_refl.
  reflexivity.
Qed.

(** Bytes other than NUL read from a cursor inside the input, one after the
    other, do not reach the terminator. *)
Lemma reads_before_terminator buf d :
  forall n,
    0 <= d <= Z.of_nat (String.length (text buf)) ->
    (forall i, (i < n)%nat -> read buf (d + Z.of_nat i) <> NUL) ->
    d + Z.of_nat n <= Z.of_nat (String.length (text buf)).
Proof.
  induction n as [|n IH]; intros Hd H; [lia|].
  assert (Hn : d + Z.of_nat n <= Z.of_nat (String.length (text buf))).
  { apply IH; [exact Hd|]. intros i Hi. apply H. lia. }
  destruct (Z.eq_dec (d + Z.of_nat n) (Z.of_nat (String.length (text buf))))
    as [E|E]; [|lia].
  exfalso. apply (H n); [lia|]. rewrite E. apply read_terminator.
Qed.

(** A successful [memcmp] from a cursor inside the input ends inside it. *)
Lemma memcmp_eq_inside buf d p :
  0 <= d <= Z.of_nat (String.length (text buf)) ->
  memcmp_eq buf d p (strlen p) = true ->
  d + Z.of_nat (strlen p) <= Z.of_nat (String.length (text buf)).
Proof.
  intros Hd E. apply reads_before_terminator; [exact Hd|].
  intros i Hi. rewrite (proj1 (memcmp_eq_spec _ _ _ _) E i Hi).
  apply strlen_read. exact Hi.
Qed.

(** A byte class that matches at a cursor inside the input has not matched
    the terminator. *)
Lemma class_match_inside buf d p :
  0 <= d <= Z.of_nat (String.length (text buf)) ->
  existsb (fun i => Ascii.eqb (read buf d) (pattern_byte p i))
          (seq 0 (strlen p)) = true ->
  d + 1 <= Z.of_nat (String.length (text buf)).
Proof.
  intros Hd E. apply existsb_exists in E. destruct E as (i & Hi & Hr).
  apply in_seq in Hi. apply Ascii.eqb_eq in Hr.
  pose proof (reads_before_terminator buf d 1 Hd) as H.
  apply H. intros j Hj. replace j with O by lia.
  rewrite Z.add_0_r, Hr. apply strlen_read. lia.
Qed.

Section Progress.

Context {ctx local : Type}.

Variable buf : input.

Let len : Z := Z.of_nat (String.length (text buf)).

Hypothesis len_fits : len < 2147483648.

Lemma run_transition_progress run_sub (t : transition ctx local) d c r :
  sub_progresses buf run_sub ->
  deep (steady buf) t ->
  0 <= d <= len ->
  run_transition run_sub t buf d c = Ok r -> 0 <= fst r ->
  1 <= fst r /\ d + fst r <= len.
Proof.
  intros Hsub Ht Hd.
  pose proof (proj1 (deep_here _ _ Ht)) as Hp. unfold progresses in Hp.
  unfold run_transition. destruct (match_type t).
  - destruct (str t) as [p|]; [|intros [= <-]; cbn; lia].
    specialize (Hp p eq_refl).
    destruct (memcmp_eq buf d p (strlen p)) eqn:E;
      [|intros [= <-]; cbn; lia].
    intros [= <-] _. cbn [fst].
    pose proof (memcmp_eq_inside buf d p Hd E). fold len in H. lia.
  - destruct (str t) as [p|]; [|intros [= <-]; cbn; lia].
    destruct (existsb _ _) eqn:E; [|intros [= <-]; cbn; lia].
    intros [= <-] _. cbn [fst].
    pose proof (class_match_inside buf d p Hd E). fold len in H. lia.
  - destruct (transition_table t) as [sub|] eqn:E;
      [|intros [= <-]; cbn; lia].
    apply Hsub; [|exact Hd]. eapply deep_sub; eassumption.
  - destruct (action t) as [f|]; [|intros [= <-]; cbn; lia].
    intros [= <-] Hr. pose proof (Hp f eq_refl d c Hr). fold len in H. lia.
  - intros [= <-]; cbn; lia.
Qed.

(** A row that fires moves the cursor forward, and not past the end. *)
Lemma scan_progress run_sub (rows : table ctx local) st n st' :
  sub_progresses buf run_sub ->
  Forall (deep (steady buf)) rows ->
  0 <= data_ptr st <= len ->
  scan run_sub rows buf st = Ok (Broke n st') ->
  1 <= n /\ data_ptr st + n <= len /\
  nbytes_processed st' = int_wrap (nbytes_processed st + n) /\
  data_ptr st' = data_ptr st + n.
Proof.
  intros Hsub Hrows Hd H. apply scan_exit_spec in H.
  destruct H as (A & B & t & c0 & c1 & I & _ & Rn & D & _).
  rewrite Forall_forall in Hrows.
  destruct (run_transition_progress _ _ _ _ _ Hsub (Hrows t I) Hd Rn A).
  cbn [fst] in *.
  rewrite (call_transfn_kept t buf _ c1
             (proj2 (deep_here _ _ (Hrows t I)))) in D.
  repeat split; assumption.
Qed.

(** An accepting run that started inside the input has consumed at least
    one byte and has stayed inside the input. *)
Lemma run_loop_progress fuel :
  forall (rows : table ctx local) st r,
    Forall (deep (steady buf)) rows ->
    run_loop fuel rows buf st = Ok r ->
    0 <= nbytes_processed st ->
    0 <= data_ptr st - nbytes_processed st ->
    data_ptr st <= len ->
    (in_accept st = true -> 1 <= nbytes_processed st) ->
    0 <= fst (fst r) ->
    1 <= fst (fst r) /\ data_ptr st - nbytes_processed st + fst (fst r) <= len.
Proof.
  induction fuel as [|fuel IH]; intros rows st r Hrows; cbn [run_loop];
    destruct (cur_state st >=? 0);
    try discriminate;
    try (unfold finish; intros [= <-] H0 Hb Hd Hacc; cbn [fst];
         destruct (in_accept st); [specialize (Hacc eq_refl)|]; lia).
  assert (Hsub : sub_progresses buf (@sub_run ctx local fuel)).
  { intros sub d c r0 Hs Hd. unfold sub_run, run_fsm.
    destruct (run_loop fuel sub buf (init_driver d c)) as [r1| |] eqn:E;
      cbn [bind]; try discriminate.
    intros [= <-]. cbn [fst]. intros Hr.
    pose proof (IH _ _ _ Hs E) as H. cbn in H. fold len in Hd.
    specialize (H ltac:(lia) ltac:(lia) ltac:(lia) ltac:(discriminate) Hr).
    fold len. lia. }
  change (fun sub b d c =>
            r0 <- run_loop fuel sub b (init_driver d c) ;;
            Ok (fst (fst r0), snd r0))
    with (@sub_run ctx local fuel).
  destruct (scan (sub_run fuel) rows buf st) as [e| |] eqn:E;
    cbn [bind]; try discriminate.
  destruct e as [n d1 c1|n st'|st'].
  - intros [= <-]. cbn [fst]. lia.
  - intros H H0 Hb Hd Hacc Hr.
    assert (Hin : 0 <= data_ptr st <= len) by lia.
    destruct (scan_progress _ _ _ _ _ Hsub Hrows Hin E)
      as (A & B & C & D).
    rewrite int_wrap_small in C by lia.
    pose proof (IH _ _ _ Hrows H) as G.
    rewrite C, D in G.
    specialize (G ltac:(lia) ltac:(lia) ltac:(lia) ltac:(intros; lia) Hr).
    lia.
  - apply scan_exit_spec in E. destruct E as (A & B & C).
    rewrite run_loop_halted by (cbn; lia).
    unfold finish, halt. cbn. intros [= <-]. cbn [fst].
    rewrite A, B. intros H0 Hb Hd Hacc.
    destruct (in_accept st); [specialize (Hacc eq_refl)|]; lia.
Qed.

Lemma sub_run_progresses fuel : sub_progresses buf (@sub_run ctx local fuel).
Proof.
  intros sub d c r0 Hs Hd. unfold sub_run, run_fsm.
  destruct (run_loop fuel sub buf (init_driver d c)) as [r1| |] eqn:E;
    cbn [bind]; try discriminate.
  intros [= <-]. cbn [fst]. intros Hr.
  pose proof (run_loop_progress _ _ _ _ Hs E) as H. cbn in H.
  fold len in Hd.
  specialize (H ltac:(lia) ltac:(lia) ltac:(lia) ltac:(discriminate) Hr).
  fold len. lia.
Qed.

End Progress.

Section Fuel.

Context {ctx local : Type}.

Lemma run_transition_mono rs1 rs2 (t : transition ctx local) buf d c r :
  refines rs1 rs2 ->
  run_transition rs1 t buf d c = Ok r -> run_transition rs2 t buf d c = Ok r.
Proof.
  intros Href. unfold run_transition.
  destruct (match_type t); try exact (fun H => H).
  destruct (transition_table t); [apply Href|exact (fun H => H)].
Qed.

Lemma scan_mono rs1 rs2 (rows : table ctx local) buf :
  refines rs1 rs2 ->
  forall st e, scan rs1 rows buf st = Ok e -> scan rs2 rows buf st = Ok e.
Proof.
  intros Href. induction rows as [|t rows IH]; intros st e; cbn [scan];
    [discriminate|].
  destruct (current_state t =? -1); [exact (fun H => H)|].
  destruct (cur_state st =? current_state t); [|apply IH].
  destruct (run_transition rs1 t buf (data_ptr st) (context_of st))
    as [r| |] eqn:E; cbn [bind]; try discriminate.
  rewrite (run_transition_mono _ _ _ _ _ _ _ Href E). cbn [bind].
  destruct (fst r >=? 0); [exact (fun H => H)|apply IH].
Qed.

(** More fuel does not change a result. *)
Lemma run_loop_mono fuel :
  forall (rows : table ctx local) buf st r,
    run_loop fuel rows buf st = Ok r ->
    forall fuel', (fuel <= fuel')%nat -> run_loop fuel' rows buf st = Ok r.
Proof.
  induction fuel as [|fuel IH]; intros rows buf st r H fuel' Hle.
  - cbn [run_loop] in H. destruct (cur_state st >=? 0) eqn:G;
      [discriminate|].
    rewrite Z.geb_leb, Z.leb_gt in G.
    rewrite run_loop_halted by assumption. exact H.
  - destruct (Z.lt_ge_cases (cur_state st) 0) as [G|G].
    + rewrite run_loop_halted in * by assumption. exact H.
    + destruct fuel' as [|fuel']; [lia|].
      rewrite run_loop_S in * by assumption.
      assert (Href : refines (@sub_run ctx local fuel) (sub_run fuel')).
      { intros sub b d c r0. unfold sub_run, run_fsm.
        destruct (run_loop fuel sub b (init_driver d c)) as [r1| |] eqn:E;
          cbn [bind]; try discriminate.
        rewrite (IH _ _ _ _ E fuel' ltac:(lia)). exact (fun H => H). }
      destruct (scan (sub_run fuel) rows buf st) as [e| |] eqn:E;
        cbn [bind] in H; try discriminate.
      rewrite (scan_mono _ _ _ _ Href _ _ E). cbn [bind].
      destruct e as [n d1 c1|n st'|st']; [exact H| |];
        apply (IH _ _ _ _ H); lia.
Qed.

Lemma sub_run_mono fuel fuel' :
  (fuel <= fuel')%nat -> refines (@sub_run ctx local fuel) (sub_run fuel').
Proof.
  intros Hle sub b d c r0. unfold sub_run, run_fsm.
  destruct (run_loop fuel sub b (init_driver d c)) as [r1| |] eqn:E;
    cbn [bind]; try discriminate.
  rewrite (run_loop_mono _ _ _ _ _ E fuel' Hle). exact (fun H => H).
Qed.

End Fuel.

Section Totality.

Context {ctx local : Type}.

Variable buf : input.

Lemma depth_le_table (t : transition ctx local) rows :
  In t rows -> (depth t <= depth_table rows)%nat.
Proof.
  induction rows as [|u rows IH]; [contradiction|].
  cbn [depth_table fold_right]. fold (depth_table rows).
  intros [->|I]; [|specialize (IH I)]; lia.
Qed.

Lemma depth_sub (t : transition ctx local) rows sub :
  In t rows -> transition_table t = Some sub ->
  (depth_table sub < depth_table rows)%nat.
Proof.
  intros I E. pose proof (depth_le_table t rows I) as H.
  destruct t as [s k p tt a l sp sf ty cb nm]. cbn [transition_table] in E.
  subst tt. cbn [depth] in H. fold (depth_table sub) in H. lia.
Qed.

Lemma has_sentinel_tail (t : transition ctx local) rows :
  has_sentinel (t :: rows) = true -> current_state t <> -1 ->
  has_sentinel rows = true.
Proof.
  unfold has_sentinel. cbn [existsb].
  destruct (Z.eqb_spec (current_state t) (-1)); [contradiction|].
  intros H _. exact H.
Qed.

Lemma run_transition_total (t : transition ctx local) d c :
  subs_return buf t ->
  0 <= d <= Z.of_nat (String.length (text buf)) ->
  exists fuel r, run_transition (sub_run fuel) t buf d c = Ok r.
Proof.
  intros Hs Hd. unfold run_transition.
  destruct (match_type t) eqn:K;
    try (exists O; destruct (str t);
         [match goal with |- context [if ?b then _ else _] => destruct b end|];
         eexists; reflexivity);
    try (exists O; eexists; reflexivity).
  - destruct (transition_table t) as [sub|] eqn:E.
    + exact (Hs K sub E d c Hd).
    + exists O; eexists; reflexivity.
  - exists O. destruct (action t); eexists; reflexivity.
Qed.

(** A pass over a table with a sentinel row comes to an end. *)
Lemma scan_total (rows : table ctx local) :
  Forall (subs_return buf) rows ->
  has_sentinel rows = true ->
  forall st, 0 <= data_ptr st <= Z.of_nat (String.length (text buf)) ->
             exists fuel e, scan (sub_run fuel) rows buf st = Ok e.
Proof.
  induction 1 as [|t rows Ht _ IH]; intros Hsent st Hd; [discriminate|].
  destruct (Z.eq_dec (current_state t) (-1)) as [S1|S1].
  { exists O, (Exhausted st). apply scan_sentinel. exact S1. }
  specialize (IH (has_sentinel_tail _ _ Hsent S1)).
  destruct (Z.eq_dec (cur_state st) (current_state t)) as [S2|S2].
  - destruct (run_transition_total t (data_ptr st) (context_of st) Ht Hd)
      as (f1 & [n c] & E1).
    destruct (Z.lt_ge_cases n 0) as [G|G].
    + destruct (IH (fail_redirect t st c) Hd) as (f2 & e & E2).
      exists (Nat.max f1 f2), e.
      rewrite (scan_row_fail _ t rows buf st n c S1 S2); [| |exact G].
      * eapply scan_mono; [|exact E2]. apply sub_run_mono. lia.
      * eapply run_transition_mono; [|exact E1]. apply sub_run_mono. lia.
    + exists f1. eexists.
      apply (scan_row_pass _ t rows buf st n c S1 S2 E1 G).
  - destruct (IH st Hd) as (f & e & E). exists f, e.
    rewrite scan_skip by assumption. exact E.
Qed.

Hypothesis len_fits : Z.of_nat (String.length (text buf)) < 2147483648.

(** One iteration: the loop returns from [st] if it returns from every
    driver state whose cursor is further on and inside the input. *)
Lemma run_loop_total_step (rows : table ctx local) st :
  Forall (subs_return buf) rows ->
  has_sentinel rows = true ->
  Forall (deep (steady buf)) rows ->
  0 <= data_ptr st <= Z.of_nat (String.length (text buf)) ->
  (forall st', data_ptr st < data_ptr st'
               <= Z.of_nat (String.length (text buf)) ->
               exists fuel r, run_loop fuel rows buf st' = Ok r) ->
  exists fuel r, run_loop fuel rows buf st = Ok r.
Proof.
  intros Hsubs Hsent Hrows Hd Hnext.
  destruct (Z.lt_ge_cases (cur_state st) 0) as [G|G].
  { exists O. eexists. apply run_loop_halted. exact G. }
  destruct (scan_total rows Hsubs Hsent st Hd) as (f & e & E).
  destruct e as [n d1 c1|n st'|st'].
  - exists (S f). eexists. rewrite run_loop_S by assumption.
    rewrite E. reflexivity.
  - destruct (scan_progress buf _ _ _ _ _
                (sub_run_progresses buf len_fits f) Hrows Hd E)
      as (A & B & _ & D).
    destruct (Hnext st' ltac:(lia)) as (f2 & r & E2).
    exists (S (Nat.max f f2)), r. rewrite run_loop_S by assumption.
    rewrite (scan_mono _ _ _ _ (sub_run_mono f (Nat.max f f2) ltac:(lia))
               _ _ E).
    cbn [bind]. apply (run_loop_mono _ _ _ _ _ E2). lia.
  - exists (S f). eexists. rewrite run_loop_S by assumption.
    rewrite E. cbn [bind]. apply run_loop_halted. cbn. lia.
Qed.

Lemma run_loop_total_depth :
  forall k (rows : table ctx local),
    (depth_table rows < k)%nat ->
    has_sentinel rows = true ->
    Forall (deep (steady buf)) rows ->
    forall st, 0 <= data_ptr st <= Z.of_nat (String.length (text buf)) ->
               exists fuel r, run_loop fuel rows buf st = Ok r.
Proof.
  induction k as [|k IHk]; intros rows Hk Hsent Hrows; [lia|].
  assert (Hsubs : Forall (subs_return buf) rows).
  { rewrite Forall_forall in *.
    intros t I K sub E d c Hd.
    assert (Hsent' : has_sentinel sub = true).
    { pose proof (proj1 (deep_here _ _ (Hrows t I))) as Hp.
      unfold progresses in Hp. rewrite K in Hp. exact (Hp sub E). }
    pose proof (deep_sub _ _ _ (Hrows t I) E) as Hrows'.
    pose proof (depth_sub t rows sub I E) as Hdp.
    destruct (IHk sub ltac:(lia) Hsent' Hrows' (init_driver d c) Hd)
      as (f & r & Hr).
    exists f. eexists. unfold sub_run, run_fsm. rewrite Hr. reflexivity. }
  assert (Hm : forall m st,
             0 <= data_ptr st <= Z.of_nat (String.length (text buf)) ->
             Z.of_nat (String.length (text buf)) - data_ptr st < Z.of_nat m ->
             exists fuel r, run_loop fuel rows buf st = Ok r).
  { induction m as [|m IHm]; intros st Hin Hst;
      apply run_loop_total_step; try assumption; intros st' Hst'.
    - lia.
    - apply IHm; lia. }
  intros st Hin.
  apply (Hm (S (Z.to_nat (Z.of_nat (String.length (text buf)) - data_ptr st))));
    [exact Hin|lia].
Qed.

End Totality.

Lemma deep_and {ctx local : Type} (P Q : transition ctx local -> Prop) :
  forall t, deep P t -> deep Q t -> deep (fun u => P u /\ Q u) t.
Proof.
  fix IH 1. intros [s k p tt a l sp sf ty cb nm].
  cbn [deep]. intros [H1 H2] [G1 G2]. split; [split; assumption|].
  clear H1 G1. destruct tt as [sub|]; [|exact I].
  revert sub H2 G2. fix IHsub 1. intros [|u sub]; cbn [fold_right].
  - intros _ _. exact I.
  - intros [Hu Hs] [Gu Gs].
    split; [exact (IH u Hu Gu)|exact (IHsub sub Hs Gs)].
Qed.

(** C6, as the code has it. On a table every level of which ends with a
    sentinel row, in which no literal is empty, every predicate that
    succeeds reports at least one byte and no more than the input holds
    after the cursor, and no callback moves the cursor, [run_fsm] returns
    on every input shorter than 2^31 bytes when started with the cursor
    inside the input, and more fuel does not change what it returns. *)
Theorem run_fsm_halts {ctx local : Type} (rows : table ctx local)
  (buf : input) (d : Z) (c : ctx) :
  well_formed buf rows ->
  Forall (deep cursor_kept) rows ->
  Z.of_nat (String.length (text buf)) < 2147483648 ->
  0 <= d <= Z.of_nat (String.length (text buf)) ->
  exists fuel r,
    forall fuel', (fuel <= fuel')%nat -> run_fsm fuel' rows buf d c = Ok r.
Proof.
  intros [Hsent Hwf] Hk Hlen Hd.
  assert (Hrows : Forall (deep (steady buf)) rows).
  { rewrite Forall_forall in *. intros t I.
    exact (deep_and _ _ t (Hwf t I) (Hk t I)). }
  destruct (run_loop_total_depth buf Hlen (S (depth_table rows)) rows
              ltac:(lia) Hsent Hrows (init_driver d c) Hd)
    as (fuel & r & H).
  exists fuel, r. intros fuel' Hle. unfold run_fsm.
  exact (run_loop_mono _ _ _ _ _ H fuel' Hle).
Qed.

Lemma tbl_outer_well_formed : well_formed "abx" tbl_outer.
Proof.
  split; [reflexivity|].
  unfold tbl_outer, tbl_abc.
  repeat (apply Forall_cons; [|]); try apply Forall_nil;
    cbn; unfold progresses; cbn; repeat split;
    try (intros sub [= <-]; reflexivity);
    try (intros p [= <-]; cbn; lia).
Qed.

Lemma tbl_outer_cursor_kept : Forall (deep cursor_kept) tbl_outer.
Proof.
  unfold tbl_outer, tbl_abc.
  repeat (apply Forall_cons; [|]); try apply Forall_nil;
    cbn; unfold cursor_kept; cbn; repeat split;
    try discriminate;
    try (intros f [= <-] buf d c; reflexivity).
Qed.

(** [tbl_outer], with its sub-machine, returns on "abx". *)
Lemma run_fsm_halts_witness :
  exists fuel r,
    forall fuel', (fuel <= fuel')%nat ->
                  run_fsm fuel' tbl_outer "abx" 0 [] = Ok r.
Proof.
  exact (run_fsm_halts tbl_outer "abx" 0 [] tbl_outer_well_formed
           tbl_outer_cursor_kept ltac:(by_eval) ltac:(by_eval)).
Defined.

Lemma loop_pred_never_returns fuel :
  run_loop fuel tbl_loop_pred "ab" (init_driver 0 []) = OutOfFuel.
Proof.
  induction fuel as [|fuel IH]; [reflexivity|].
  rewrite run_loop_S by (cbn; lia). exact IH.
Qed.

Lemma loop_empty_never_returns fuel :
  run_loop fuel tbl_loop_empty "ab" (init_driver 0 []) = OutOfFuel.
Proof.
  induction fuel as [|fuel IH]; [reflexivity|].
  rewrite run_loop_S by (cbn; lia). exact IH.
Qed.

(** C6 as stated fails: a table that ends with a sentinel row and whose
    only other row is a predicate that matches 0 bytes and leads back to
    state 0 keeps the driver in state 0 for ever; so does a row with an
    empty literal. No amount of fuel yields a result. *)
Lemma run_fsm_loops_forever :
  has_sentinel tbl_loop_pred = true /\
  ~ (exists fuel r, run_fsm fuel tbl_loop_pred "ab" 0 [] = Ok r) /\
  has_sentinel tbl_loop_empty = true /\
  ~ (exists fuel r, run_fsm fuel tbl_loop_empty "ab" 0 [] = Ok r).
Proof.
  split; [reflexivity|]. split; [|split; [reflexivity|]].
  - intros (fuel & r & H). unfold run_fsm in H.
    rewrite loop_pred_never_returns in H. discriminate.
  - intros (fuel & r & H). unfold run_fsm in H.
    rewrite loop_empty_never_returns in H. discriminate.
Qed.

Lemma rewind_never_returns fuel :
  forall k d, d = 0 \/ d = 1 ->
    run_loop fuel tbl_rewind "aa" (mk_driver 0 k false d []) = OutOfFuel.
Proof.
  induction fuel as [|fuel IH]; intros k d [-> | ->]; try reflexivity;
    rewrite run_loop_S by (cbn; lia);
    exact (IH (int_wrap (k + 1)) 1 (or_intror eq_refl)).
Qed.

(** A callback that moves the cursor back can keep a table of non-empty
    literals in its loop: [tbl_rewind] never returns on "aa". *)
Example run_rewind_loops :
  ~ (exists fuel r, run_fsm fuel tbl_rewind "aa" 0 [] = Ok r).
Proof.
  intros (fuel & r & H). unfold run_fsm in H.
  change (init_driver 0 []) with (@mk_driver (list (Z * nat)) 0 0 false 0 [])
    in H.
  rewrite (rewind_never_returns fuel 0 0 (or_introl eq_refl)) in H.
  discriminate.
Qed.

(** * Further properties of the matcher and the driver *)

(** ** The byte-class matcher *)

(** X1. For a SINGLE_CHR row: a NULL pattern fails; the attempt succeeds
    with length 1, whatever the size of the class, when the byte at the
    cursor is one of the bytes of the pattern, and fails when it is none of
    them; with the cursor on the terminator of the input it fails for every
    pattern. The context is left alone. *)
Theorem single_chr_match {ctx local : Type} (run_sub : sub_call)
  (t : transition ctx local) (buf : input) (d : Z) (c : ctx) :
  match_type t = SINGLE_CHR ->
  (str t = None -> run_transition run_sub t buf d c = Ok (-1, c)) /\
  (forall p, str t = Some p ->
     ((exists i, (i < strlen p)%nat /\ read buf d = pattern_byte p i) ->
      run_transition run_sub t buf d c = Ok (1, c)) /\
     ((forall i, (i < strlen p)%nat -> read buf d <> pattern_byte p i) ->
      run_transition run_sub t buf d c = Ok (-1, c)) /\
     (d = Z.of_nat (String.length (text buf)) ->
      run_transition run_sub t buf d c = Ok (-1, c))).
Proof.
  intros K. unfold run_transition. rewrite K. split.
  - intros ->. reflexivity.
  - intros p ->.
    assert (Hno : (forall i, (i < strlen p)%nat ->
                     read buf d <> pattern_byte p i) ->
                  (if existsb (fun i => Ascii.eqb (read buf d)
                                          (pattern_byte p i))
                              (seq 0 (strlen p))
                   then Ok (1, c) else Ok (-1, c)) = Ok (-1, c)).
    { intros H. destruct (existsb _ _) eqn:E; [|reflexivity].
      apply existsb_exists in E. destruct E as (i & Hi & Hr).
      apply in_seq in Hi. apply Ascii.eqb_eq in Hr.
      exfalso. apply (H i); [lia|exact Hr]. }
    split; [|split].
    + intros (i & Hi & Hr).
      assert (E : existsb (fun i => Ascii.eqb (read buf d)
                                      (pattern_byte p i))
                          (seq 0 (strlen p)) = true).
      { apply existsb_exists. exists i. split; [apply in_seq; lia|].
        apply Ascii.eqb_eq. exact Hr. }
      rewrite E. reflexivity.
    + exact Hno.
    + intros ->. apply Hno. intros i Hi.
      rewrite read_terminator. intros E.
      exact (strlen_read p i Hi (eq_sym E)).
Qed.

(** The class "xyz" takes the 'y' of "yq" and consumes one byte. *)
Lemma single_chr_match_witness :
  run_transition (sub_run 0) (row_chr 0 "xyz" 1 (-1) ACCEPT) "yq" 0 []
  = Ok (1, []).
Proof.
  refine (proj1 (proj2 (single_chr_match (sub_run 0)
            (row_chr 0 "xyz" 1 (-1) ACCEPT) "yq" 0 []
            ltac:(by_eval)) "xyz"%string ltac:(by_eval)) _).
  exists 1%nat. split; [cbn; lia|reflexivity].
Defined.

(** ** The literal matcher and the end of the input *)

(** X2. From a cursor inside the input (or on its terminator), a successful
    attempt of an EXACT_STR row does not reach past the end of the input:
    the cursor plus the consumed length is at most the length of the input.
    The context is left alone. *)
Theorem exact_str_within_input {ctx local : Type} (run_sub : sub_call)
  (t : transition ctx local) (buf : input) (d : Z) (c : ctx) (n : Z)
  (c' : ctx) :
  match_type t = EXACT_STR ->
  0 <= d <= Z.of_nat (String.length (text buf)) ->
  run_transition run_sub t buf d c = Ok (n, c') ->
  0 <= n ->
  d + n <= Z.of_nat (String.length (text buf)) /\ c' = c.
Proof.
  intros K Hd. unfold run_transition. rewrite K.
  destruct (str t) as [p|]; [|intros [= <- <-]; lia].
  destruct (memcmp_eq buf d p (strlen p)) eqn:E; [|intros [= <- <-]; lia].
  intros [= <- <-] _.
  split; [exact (memcmp_eq_inside buf d p Hd E)|reflexivity].
Qed.

(** "cd" matches the last two bytes of "abcd": 2 + 2 <= 4. *)
Lemma exact_str_within_input_witness :
  2 + 2 <= Z.of_nat (String.length "abcd") /\ @nil (Z * nat) = [].
Proof.
  exact (exact_str_within_input (sub_run 0)
           (row_str 0 "cd" 1 (-1) ACCEPT None 0) "abcd" 2 [] 2 []
           ltac:(by_eval) ltac:(by_eval) ltac:(by_eval) ltac:(by_eval)).
Defined.

(** ** Malformed rows *)

(** X3. A row whose match kind is none of the four, or whose pattern,
    sub-table or predicate (whichever its match kind needs) is NULL, is a
    plain failed attempt: [run_transition] returns -1 without touching the
    context, and a pass that meets such a row in its state goes on with the
    next row, cursor, total and flag unchanged, after the fail-redirect of
    the row if it has one. *)
Theorem malformed_row_fails {ctx local : Type} (fuel : nat)
  (t : transition ctx local) (rest : table ctx local) (buf : input)
  (st : driver ctx) :
  malformed t ->
  run_transition (sub_run fuel) t buf (data_ptr st) (context_of st)
  = Ok (-1, context_of st) /\
  (current_state t <> -1 -> cur_state st = current_state t ->
   scan (sub_run fuel) (t :: rest) buf st
   = scan (sub_run fuel) rest buf
       (mk_driver (if state_fail t >=? 0 then state_fail t else cur_state st)
                  (nbytes_processed st) (in_accept st) (data_ptr st)
                  (context_of st))).
Proof.
  intros Hm.
  assert (E : run_transition (sub_run fuel) t buf (data_ptr st) (context_of st)
              = Ok (-1, context_of st)).
  { unfold malformed in Hm. unfold run_transition.
    destruct (match_type t); try rewrite Hm; reflexivity. }
  split; [exact E|].
  intros H1 H2.
  rewrite (scan_row_fail _ t rest buf st (-1) (context_of st) H1 H2 E)
    by lia.
  reflexivity.
Qed.

(** A sub-machine row without a sub-table in front of the row "a". *)
Lemma malformed_row_fails_witness :
  scan (sub_run 0)
       [mk_transition 0 FSM None None None O 1 (-1) ACCEPT None None;
        row_str 0 "a" 1 (-1) ACCEPT None 1; sentinel]
       "a" (init_driver 0 [])
  = Ok (Broke 1 (mk_driver 1 1 true 1 [])).
Proof.
  rewrite (proj2 (malformed_row_fails 0
                    (mk_transition 0 FSM None None None O 1 (-1) ACCEPT
                                   None None)
                    _ "a" (init_driver 0 []) ltac:(by_eval))
             ltac:(by_eval) ltac:(by_eval)).
  reflexivity.
Defined.

(** ** The result of a run *)

Lemma total_nonneg ns : Forall (fun n => 0 <= n) ns -> 0 <= total ns.
Proof.
  induction 1 as [|n ns Hn _ IH]; cbn; [lia|]. unfold total in IH. lia.
Qed.

(** X4. On a table whose callbacks leave the cursor where they found it,
    what [run_fsm] returns lies in the range of a 32-bit [int] and the
    cursor never moves backwards; as long as the lengths the run committed
    sum to less than 2^31, the result is -1 or a length that is not
    negative, and when it is a length the caller's cursor has been advanced
    by exactly that length. *)
Theorem run_fsm_result_and_cursor {ctx local : Type} (fuel : nat)
  (rows : table ctx local) (buf : input) (d : Z) (c : ctx)
  (r d' : Z) (c' : ctx) :
  Forall cursor_kept rows ->
  run_fsm fuel rows buf d c = Ok (r, d', c') ->
  -2147483648 <= r < 2147483648 /\
  d <= d' /\
  (total (committed fuel rows buf (init_driver d c)) < 2147483648 ->
   r = -1 \/ (0 <= r /\ d' = d + r)).
Proof.
  intros Hk H. unfold run_fsm in H.
  destruct (run_loop_committed _ _ _ _ _ _ _ H) as (F & D & Rr).
  apply total_nonneg in F. specialize (D Hk). specialize (Rr eq_refl).
  cbn in D, Rr.
  split; [|split].
  - destruct Rr as [Rr|Rr]; rewrite Rr; [lia|apply int_wrap_range].
  - lia.
  - intros Hs. destruct Rr as [Rr|Rr]; [now left|right].
    rewrite int_wrap_small in Rr by lia. lia.
Qed.

(** "ab" against "abcd": the result is 2 and the cursor goes from 0 to 2. *)
Lemma run_fsm_result_and_cursor_witness :
  2 = -1 \/ (0 <= 2 /\ 2 = 0 + 2).
Proof.
  exact (proj2 (proj2 (run_fsm_result_and_cursor 2 tbl_ab "abcd" 0 [] 2 2 []
                         ltac:(repeat constructor; intros f; cbn;
                               discriminate)
                         eq_refl))
           ltac:(by_eval)).
Defined.

(** ** Rows the driver does not read *)

Section Suffix.

Context {ctx local : Type}.

(** A pass that has come to its end has not looked past the row it ended
    at. *)
Lemma scan_app (run_sub : sub_call) (rows more : table ctx local) buf :
  forall st e,
    scan run_sub rows buf st = Ok e ->
    scan run_sub (rows ++ more) buf st = Ok e.
Proof.
  induction rows as [|t rows IH]; intros st e; cbn [scan app];
    [discriminate|].
  destruct (current_state t =? -1); [exact (fun H => H)|].
  destruct (cur_state st =? current_state t); [|apply IH].
  destruct (run_transition run_sub t buf (data_ptr st) (context_of st))
    as [r| |]; cbn [bind]; try discriminate.
  destruct (fst r >=? 0); [exact (fun H => H)|apply IH].
Qed.

Lemma run_loop_app fuel :
  forall (rows more : table ctx local) buf st r,
    run_loop fuel rows buf st = Ok r ->
    run_loop fuel (rows ++ more) buf st = Ok r.
Proof.
  induction fuel as [|fuel IH]; intros rows more buf st r;
    cbn [run_loop]; destruct (cur_state st >=? 0);
    try discriminate; try exact (fun H => H).
  destruct (scan _ rows buf st) as [e| |] eqn:E; cbn [bind];
    try discriminate.
  rewrite (scan_app _ rows more buf st e E). cbn [bind].
  destruct e as [n d1 c1|n st'|st']; [exact (fun H => H)| |]; apply IH.
Qed.

End Suffix.

(** X5. What follows the sentinel row is never read: a run that returns on
    a table returns the same result, cursor and context on that table with
    any rows put after it. *)
Theorem rows_after_sentinel_unread {ctx local : Type} (fuel : nat)
  (rows more : table ctx local) (buf : input) (d : Z) (c : ctx)
  (r : Z * Z * ctx) :
  run_fsm fuel rows buf d c = Ok r ->
  run_fsm fuel (rows ++ more) buf d c = Ok r.
Proof. unfold run_fsm. apply run_loop_app. Qed.

(** The rows of [tbl_reject] after those of [tbl_ab] change nothing. *)
Lemma rows_after_sentinel_unread_witness :
  run_fsm 2 (tbl_ab ++ tbl_reject) "abcd" 0 [] = Ok (2, 2, []).
Proof.
  exact (rows_after_sentinel_unread 2 tbl_ab tbl_reject "abcd" 0 [] _ eq_refl).
Defined.

(** ** A state without a row *)

(** X6. When no row in front of the sentinel row is for the current state,
    the run ends in that very pass with the flag it had; from the initial
    state that is -1 with the cursor and the context as they were handed
    in. A table that begins with its sentinel row rejects every input this
    way. *)
Theorem no_row_for_state_rejects {ctx local : Type} (fuel : nat)
  (pre : table ctx local) (s : transition ctx local) (rest : table ctx local)
  (buf : input) (st : driver ctx) :
  0 <= cur_state st ->
  Forall (fun u => current_state u <> -1 /\ cur_state st <> current_state u)
         pre ->
  current_state s = -1 ->
  run_loop (S fuel) (pre ++ s :: rest) buf st
  = Ok (if in_accept st then nbytes_processed st else -1,
        data_ptr st, context_of st) /\
  (cur_state st = 0 ->
   run_fsm (S fuel) (pre ++ s :: rest) buf (data_ptr st) (context_of st)
   = Ok (-1, data_ptr st, context_of st)).
Proof.
  intros H0 Hpre Hs.
  assert (E : forall st1 : driver ctx,
             0 <= cur_state st1 -> cur_state st1 = cur_state st ->
             run_loop (S fuel) (pre ++ s :: rest) buf st1 = Ok (finish st1)).
  { intros st1 G1 G2. rewrite run_loop_S by assumption.
    rewrite scan_skip_prefix by (rewrite G2; exact Hpre).
    rewrite scan_sentinel by assumption. cbn [bind].
    rewrite run_loop_halted by (cbn; lia). reflexivity. }
  split.
  - rewrite (E st H0 eq_refl). reflexivity.
  - intros Hz. unfold run_fsm.
    rewrite (E (init_driver (data_ptr st) (context_of st)));
      [reflexivity|cbn; lia|cbn; lia].
Qed.

(** A table with rows for state 3 only, run on "a" from the cursor 1. *)
Lemma no_row_for_state_rejects_witness :
  run_fsm 1 [row_str 3 "a" 4 (-1) ACCEPT None 0; sentinel] "xa" 1 [(9, 9%nat)]
  = Ok (-1, 1, [(9, 9%nat)]).
Proof.
  exact (proj2 (no_row_for_state_rejects 0
                  [row_str 3 "a" 4 (-1) ACCEPT None 0] sentinel [] "xa"
                  (init_driver 1 [(9, 9%nat)])
                  ltac:(by_eval)
                  ltac:(repeat constructor; cbn; lia)
                  ltac:(by_eval)) eq_refl).
Defined.

(** ** Reads stay inside the tables *)

Section InBounds.

Context {ctx local : Type}.

Lemma terminated_sub (t : transition ctx local) sub :
  deep terminated_row t -> match_type t = FSM ->
  transition_table t = Some sub -> terminated sub.
Proof.
  intros Ht K E. split.
  - exact (deep_here _ _ Ht K sub E).
  - eapply deep_sub; eassumption.
Qed.

Lemma run_transition_in_bounds (run_sub : sub_call)
  (t : transition ctx local) buf d c :
  (forall sub d c, terminated sub -> run_sub sub buf d c <> OutOfBounds) ->
  deep terminated_row t ->
  run_transition run_sub t buf d c <> OutOfBounds.
Proof.
  intros Hsub Ht. unfold run_transition.
  destruct (match_type t) eqn:K;
    try (destruct (str t);
         [match goal with |- context [if ?b then _ else _] => destruct b end|];
         discriminate);
    try discriminate.
  - destruct (transition_table t) as [sub|] eqn:E; [|discriminate].
    apply Hsub. eapply terminated_sub; eassumption.
  - destruct (action t); discriminate.
Qed.

Lemma scan_in_bounds (run_sub : sub_call) (rows : table ctx local) buf :
  (forall sub d c, terminated sub -> run_sub sub buf d c <> OutOfBounds) ->
  Forall (deep terminated_row) rows ->
  has_sentinel rows = true ->
  forall st, scan run_sub rows buf st <> OutOfBounds.
Proof.
  intros Hsub. induction 1 as [|t rows Ht _ IH]; intros Hsent st;
    [discriminate|].
  destruct (Z.eq_dec (current_state t) (-1)) as [S1|S1].
  { rewrite scan_sentinel by assumption. discriminate. }
  specialize (IH (has_sentinel_tail _ _ Hsent S1)).
  cbn [scan].
  destruct (current_state t =? -1); [discriminate|].
  destruct (cur_state st =? current_state t); [|apply IH].
  pose proof (run_transition_in_bounds run_sub t buf (data_ptr st)
                (context_of st) Hsub Ht) as Hr.
  destruct (run_transition run_sub t buf (data_ptr st) (context_of st))
    as [r| |]; cbn [bind]; [|discriminate|contradiction].
  destruct (fst r >=? 0); [destruct (type t); discriminate|apply IH].
Qed.

Lemma run_loop_in_bounds fuel :
  forall (rows : table ctx local) buf st,
    terminated rows -> run_loop fuel rows buf st <> OutOfBounds.
Proof.
  induction fuel as [|fuel IH]; intros rows buf st [Hsent Hrows];
    cbn [run_loop]; destruct (cur_state st >=? 0); try discriminate.
  assert (Hsub : forall sub d c, terminated sub ->
                                 @sub_run ctx local fuel sub buf d c
                                 <> OutOfBounds).
  { intros sub d c Hs. unfold sub_run, run_fsm.
    pose proof (IH sub buf (init_driver d c) Hs) as H.
    destruct (run_loop fuel sub buf (init_driver d c)); cbn [bind];
      [discriminate|discriminate|contradiction]. }
  change (fun sub b d c =>
            r0 <- run_loop fuel sub b (init_driver d c) ;;
            Ok (fst (fst r0), snd r0))
    with (@sub_run ctx local fuel).
  pose proof (scan_in_bounds _ rows buf Hsub Hrows Hsent st) as Hscan.
  destruct (scan (sub_run fuel) rows buf st) as [e| |]; cbn [bind];
    [|discriminate|contradiction].
  destruct e as [n d1 c1|n st'|st']; [discriminate| |];
    apply IH; split; assumption.
Qed.

End InBounds.

(** X7. On a table that holds a sentinel row, and every sub-table below
    which holds one, no pass of a run, at any depth of sub-machines, walks
    off the end of a table. *)
Theorem run_fsm_reads_inside_tables {ctx local : Type} (fuel : nat)
  (rows : table ctx local) (buf : input) (d : Z) (c : ctx) :
  terminated rows -> run_fsm fuel rows buf d c <> OutOfBounds.
Proof. intros H. unfold run_fsm. apply run_loop_in_bounds. exact H. Qed.

Lemma tbl_outer_terminated : terminated tbl_outer.
Proof.
  split; [reflexivity|].
  unfold tbl_outer, tbl_abc.
  repeat (apply Forall_cons; [|]); try apply Forall_nil;
    cbn; unfold terminated_row; cbn; repeat split;
    try discriminate;
    try (intros _ sub [= <-]; reflexivity).
Qed.

(** [tbl_outer] and its sub-machine end with sentinel rows. *)
Lemma run_fsm_reads_inside_tables_witness :
  run_fsm 4 tbl_outer "abx" 0 [] <> OutOfBounds.
Proof.
  exact (run_fsm_reads_inside_tables 4 tbl_outer "abx" 0 []
           tbl_outer_terminated).
Defined.

(** ** Acceptance needs an ACCEPT row *)

Lemma run_loop_never_accepts {ctx local : Type} (fuel : nat) :
  forall (rows : table ctx local) buf (st : driver ctx) r,
    Forall (fun t => type t <> ACCEPT) rows ->
    in_accept st = false ->
    run_loop fuel rows buf st = Ok r -> fst (fst r) = -1.
Proof.
  induction fuel as [|fuel IH]; intros rows buf st r Hrows Hacc;
    cbn [run_loop]; destruct (cur_state st >=? 0);
    try discriminate;
    try (unfold finish; rewrite Hacc; intros [= <-]; reflexivity).
  destruct (scan _ rows buf st) as [e| |] eqn:E; cbn [bind];
    try discriminate.
  apply scan_exit_spec in E. unfold exit_spec in E.
  destruct e as [n d1 c1|n st'|st'].
  - intros [= <-]. reflexivity.
  - destruct E as (_ & _ & t & c0 & c2 & I & _ & _ & _ & _ & _ & Hflag).
    apply IH; [exact Hrows|].
    rewrite Forall_forall in Hrows.
    destruct (in_accept st') eqn:A; [|reflexivity].
    exfalso. exact (Hrows t I (proj1 Hflag eq_refl)).
  - destruct E as (_ & Hflag & _).
    apply IH; [exact Hrows|]. cbn. rewrite Hflag. exact Hacc.
Qed.

(** X8. A run on a table none of whose rows is of kind ACCEPT never
    accepts: whenever it returns, it returns -1, whatever it consumed on
    the way; and under the conditions that make a run halt (sentinel rows
    at every level, matches that make progress, callbacks that leave the
    cursor alone, an input shorter than 2^31 bytes and a cursor that starts
    inside it) it does return -1. The kinds of the rows of sub-machines do
    not count. *)
Theorem no_accept_row_never_accepts {ctx local : Type}
  (rows : table ctx local) (buf : input) (d : Z) (c : ctx) :
  Forall (fun t => type t <> ACCEPT) rows ->
  (forall fuel r d' c',
     run_fsm fuel rows buf d c = Ok (r, d', c') -> r = -1) /\
  (well_formed buf rows ->
   Forall (deep cursor_kept) rows ->
   Z.of_nat (String.length (text buf)) < 2147483648 ->
   0 <= d <= Z.of_nat (String.length (text buf)) ->
   exists fuel d' c',
     forall fuel', (fuel <= fuel')%nat ->
                   run_fsm fuel' rows buf d c = Ok (-1, d', c')).
Proof.
  intros Hrows. split.
  - intros fuel r d' c' H. unfold run_fsm in H.
    exact (run_loop_never_accepts fuel rows buf (init_driver d c) _ Hrows
             eq_refl H).
  - intros [Hsent Hwf] Hk Hlen Hd.
    assert (Hsteady : Forall (deep (steady buf)) rows).
    { rewrite Forall_forall in *. intros t I.
      exact (deep_and _ _ t (Hwf t I) (Hk t I)). }
    destruct (run_loop_total_depth buf Hlen (S (depth_table rows)) rows
                ltac:(lia) Hsent Hsteady (init_driver d c) Hd)
      as (fuel & [[r d'] c'] & H).
    pose proof (run_loop_never_accepts fuel rows buf (init_driver d c) _
                  Hrows eq_refl H) as Hr.
    cbn in Hr. subst r.
    exists fuel, d', c'. intros fuel' Hle. unfold run_fsm.
    exact (run_loop_mono _ _ _ _ _ H fuel' Hle).
Qed.

(** [tbl_dead_end] consumes "a" and returns -1. *)
Lemma no_accept_row_never_accepts_witness :
  run_fsm 2 tbl_dead_end "ab" 0 [] = Ok (-1, 1, []) /\ -1 = -1.
Proof.
  split; [reflexivity|].
  exact (proj1 (no_accept_row_never_accepts tbl_dead_end "ab" 0 []
                  ltac:(repeat constructor; cbn; discriminate))
           2%nat (-1) 1 [] eq_refl).
Defined.

(** ** The engine does not write the context *)

Lemma deep_mono {ctx local : Type} (P Q : transition ctx local -> Prop) :
  (forall t, P t -> Q t) -> forall t, deep P t -> deep Q t.
Proof.
  intros HPQ. fix IH 1. intros [s k p tt a l sp sf ty cb nm].
  cbn [deep]. intros [H1 H2]. split; [apply HPQ; exact H1|].
  clear H1. destruct tt as [sub|]; [|exact I].
  revert sub H2. fix IHsub 1. intros [|u sub]; cbn [fold_right].
  - intros _. exact I.
  - intros [Hu Hs]. split; [exact (IH u Hu)|exact (IHsub sub Hs)].
Qed.

(** X9. On a table to which no predicate and no callback is attached, at
    any depth of sub-machines, [run_fsm] hands the context back as it got
    it, whether it accepts or not. *)
Theorem context_untouched_without_callables {ctx local : Type} (fuel : nat)
  (rows : table ctx local) (buf : input) (d : Z) (c : ctx)
  (r d' : Z) (c' : ctx) :
  Forall (deep no_callables) rows ->
  run_fsm fuel rows buf d c = Ok (r, d', c') ->
  c' = c.
Proof.
  intros Hrows H. unfold run_fsm in H.
  assert (Hinf : Forall (deep (inflationary eq)) rows).
  { eapply Forall_impl; [|exact Hrows]. apply deep_mono.
    intros t [Ha Hc]. split; intros f E; congruence. }
  symmetry.
  exact (run_loop_inflationary eq (fun a => eq_refl) (@eq_trans ctx)
           fuel rows buf _ _ Hinf H).
Qed.

Lemma tbl_redirect_no_callables : Forall (deep no_callables) tbl_redirect.
Proof. repeat constructor. Qed.

(** [tbl_redirect] carries no callable: the log comes back as it went in. *)
Lemma context_untouched_without_callables_witness :
  [(4, 2%nat)] = [(4, 2%nat)].
Proof.
  exact (context_untouched_without_callables 3 tbl_redirect "a" 0
           [(4, 2%nat)] 1 1 [(4, 2%nat)] tbl_redirect_no_callables eq_refl).
Defined.

(** ** A sub-machine that accepts *)

(** X10. When the sub-run of an eligible sub-machine row accepts with
    length [r], the row fires with that length: the callback of the row
    sees the outer cursor as it was before the sub-run and the context as
    the sub-run left it, and the outer cursor, as that callback leaves it,
    is advanced by [r]; where the sub-run left its own copy of the cursor
    plays no part. If the callbacks of the sub-table leave the cursor alone
    and the sub-run committed less than 2^31 bytes, [r] is exactly the
    distance the sub-run moved its copy. *)
Theorem sub_machine_accept_advances_outer {ctx local : Type} (fuel : nat)
  (t : transition ctx local) (rest sub : table ctx local) (buf : input)
  (st : driver ctx) (r d_sub : Z) (c_sub : ctx) :
  current_state t <> -1 ->
  cur_state st = current_state t ->
  match_type t = FSM ->
  transition_table t = Some sub ->
  run_fsm fuel sub buf (data_ptr st) (context_of st) = Ok (r, d_sub, c_sub) ->
  0 <= r ->
  scan (sub_run fuel) (t :: rest) buf st =
  Ok (let called := call_transfn t buf (data_ptr st) c_sub in
      match type t with
      | ACCEPT =>
          Broke r (mk_driver (state_pass t)
                             (int_wrap (nbytes_processed st + r)) true
                             (fst called + r) (snd called))
      | REJECT => Aborted r (fst called + r) (snd called)
      | NORMAL =>
          Broke r (mk_driver (state_pass t)
                             (int_wrap (nbytes_processed st + r)) false
                             (fst called + r) (snd called))
      end) /\
  (Forall cursor_kept sub ->
   total (committed fuel sub buf
            (init_driver (data_ptr st) (context_of st))) < 2147483648 ->
   d_sub = data_ptr st + r).
Proof.
  intros H1 H2 K E Hrun Hr.
  assert (Ht : run_transition (sub_run fuel) t buf (data_ptr st)
                 (context_of st) = Ok (r, c_sub)).
  { unfold run_transition. rewrite K, E. unfold sub_run. rewrite Hrun.
    reflexivity. }
  split.
  - exact (scan_row_pass _ t rest buf st r c_sub H1 H2 Ht Hr).
  - intros Hk Hs. unfold run_fsm in Hrun.
    destruct (run_loop_committed _ _ _ _ _ _ _ Hrun) as (F & D & Rr).
    apply total_nonneg in F. specialize (D Hk). specialize (Rr eq_refl).
    cbn in D, Rr. rewrite int_wrap_small in Rr by lia. lia.
Qed.

Lemma tbl_abc_cursor_kept : Forall cursor_kept tbl_abc.
Proof.
  unfold tbl_abc.
  repeat (apply Forall_cons; [|]); try apply Forall_nil;
    intros f; cbn; try discriminate; intros [= <-] buf d c; reflexivity.
Qed.

(** The sub-machine "abc" accepts on "abcd" from the cursor 0 and leaves
    its copy at 3; the outer row "d" then fires at the cursor 3. *)
Lemma sub_machine_accept_advances_outer_witness :
  scan (sub_run 4) [row_fsm 0 tbl_abc 1 (-1) NORMAL;
                    row_str 1 "d" 2 (-1) ACCEPT None 0; sentinel]
       "abcd" (init_driver 0 [])
  = Ok (Broke 3 (mk_driver 1 3 false 3 [(0, 1%nat)])) /\
  3 = 0 + 3.
Proof.
  pose proof (sub_machine_accept_advances_outer 4
                (row_fsm 0 tbl_abc 1 (-1) NORMAL)
                [row_str 1 "d" 2 (-1) ACCEPT None 0; sentinel]
                tbl_abc "abcd" (init_driver 0 []) 3 3 [(0, 1%nat)]
                ltac:(by_eval) ltac:(by_eval) ltac:(by_eval) ltac:(by_eval)
                ltac:(by_eval) ltac:(by_eval)) as [H1 H2].
  split; [exact H1|].
  exact (H2 tbl_abc_cursor_kept ltac:(by_eval)).
Defined.

(** ** The cursor and the end of the input *)

Section Bounded.

Context {ctx local : Type}.

Variable buf : input.

Hypothesis len_fits : Z.of_nat (String.length (text buf)) < 2147483648.

Lemma tame_cursor_kept (rows : table ctx local) :
  Forall (deep tame) rows -> Forall cursor_kept rows.
Proof.
  intros H. eapply Forall_impl; [|exact H].
  intros t Ht. exact (proj2 (deep_here _ _ Ht)).
Qed.

Lemma run_transition_bounded fuel (t : transition ctx local) d c n c' :
  (forall (sub : table ctx local) d0 c0 r,
     Forall (deep tame) sub ->
     0 <= d0 <= Z.of_nat (String.length (text buf)) ->
     run_loop fuel sub buf (init_driver d0 c0) = Ok r ->
     snd (fst r) <= Z.of_nat (String.length (text buf))) ->
  deep tame t ->
  0 <= d <= Z.of_nat (String.length (text buf)) ->
  run_transition (sub_run fuel) t buf d c = Ok (n, c') ->
  0 <= n ->
  d + n <= Z.of_nat (String.length (text buf)).
Proof.
  intros IH Ht Hd.
  pose proof (proj1 (deep_here _ _ Ht)) as Hp. unfold no_predicate in Hp.
  unfold run_transition. destruct (match_type t) eqn:K.
  - destruct (str t) as [p|]; [|intros [= <- <-]; lia].
    destruct (memcmp_eq buf d p (strlen p)) eqn:E;
      [|intros [= <- <-]; lia].
    intros [= <- <-] _. exact (memcmp_eq_inside buf d p Hd E).
  - destruct (str t) as [p|]; [|intros [= <- <-]; lia].
    destruct (existsb _ _) eqn:E; [|intros [= <- <-]; lia].
    intros [= <- <-] _. exact (class_match_inside buf d p Hd E).
  - destruct (transition_table t) as [sub|] eqn:E;
      [|intros [= <- <-]; lia].
    unfold sub_run, run_fsm.
    destruct (run_loop fuel sub buf (init_driver d c))
      as [[[r d_sub] c_sub]| |] eqn:Hrun; cbn [bind]; try discriminate.
    cbn [fst snd]. intros [= <- <-] Hr.
    pose proof (deep_sub _ _ _ Ht E) as Hs.
    pose proof (IH sub d c _ Hs Hd Hrun) as Hb.
    destruct (run_loop_committed _ _ _ _ _ _ _ Hrun) as (F & D & Rr).
    apply total_nonneg in F.
    specialize (D (tame_cursor_kept sub Hs)). specialize (Rr eq_refl).
    cbn in Hb, D, Rr. rewrite int_wrap_small in Rr by lia. lia.
  - rewrite (Hp eq_refl). intros [= <- <-]; lia.
  - intros [= <- <-]; lia.
Qed.

Lemma run_loop_bounded fuel :
  forall (rows : table ctx local) st r,
    Forall (deep tame) rows ->
    0 <= data_ptr st <= Z.of_nat (String.length (text buf)) ->
    run_loop fuel rows buf st = Ok r ->
    snd (fst r) <= Z.of_nat (String.length (text buf)).
Proof.
  induction fuel as [|fuel IH]; intros rows st r Hrows Hd;
    cbn [run_loop]; destruct (cur_state st >=? 0);
    try discriminate;
    try (unfold finish; intros [= <-]; exact (proj2 Hd)).
  assert (Hsub : forall (sub : table ctx local) d0 c0 r0,
             Forall (deep tame) sub ->
             0 <= d0 <= Z.of_nat (String.length (text buf)) ->
             run_loop fuel sub buf (init_driver d0 c0) = Ok r0 ->
             snd (fst r0) <= Z.of_nat (String.length (text buf))).
  { intros sub d0 c0 r0 Hs Hd0. apply IH; assumption. }
  change (fun sub b d c =>
            r0 <- run_loop fuel sub b (init_driver d c) ;;
            Ok (fst (fst r0), snd r0))
    with (@sub_run ctx local fuel).
  destruct (scan (sub_run fuel) rows buf st) as [e| |] eqn:E;
    cbn [bind]; try discriminate.
  apply scan_exit_spec in E. unfold exit_spec in E.
  pose proof (tame_cursor_kept rows Hrows) as Hk.
  rewrite Forall_forall in Hrows, Hk.
  destruct e as [n d1 c1|n st'|st'].
  - destruct E as (A & t & c0 & c2 & I & _ & Rn & D & _).
    intros [= <-]. cbn [fst snd].
    rewrite D, (call_transfn_kept t buf _ c2 (Hk t I)).
    exact (run_transition_bounded fuel t _ _ _ _ Hsub (Hrows t I) Hd Rn A).
  - destruct E as (A & _ & t & c0 & c2 & I & _ & Rn & D & _).
    rewrite (call_transfn_kept t buf _ c2 (Hk t I)) in D.
    pose proof (run_transition_bounded fuel t _ _ _ _ Hsub (Hrows t I) Hd
                  Rn A) as Hb.
    apply IH; [apply Forall_forall; exact Hrows|]. lia.
  - destruct E as (_ & _ & B).
    apply IH; [apply Forall_forall; exact Hrows|]. cbn. lia.
Qed.

End Bounded.

(** X11. On a table that calls no predicate and whose callbacks leave the
    cursor alone, at any depth of sub-machines, and on an input shorter
    than 2^31 bytes, a run that starts with the cursor inside the input (or
    on its terminator) leaves it there: the cursor on return is not before
    the one at entry and not past the terminator, whether the run accepts
    or not. *)
Theorem cursor_stays_inside_input {ctx local : Type} (fuel : nat)
  (rows : table ctx local) (buf : input) (d : Z) (c : ctx)
  (r d' : Z) (c' : ctx) :
  Forall (deep tame) rows ->
  Z.of_nat (String.length (text buf)) < 2147483648 ->
  0 <= d <= Z.of_nat (String.length (text buf)) ->
  run_fsm fuel rows buf d c = Ok (r, d', c') ->
  d <= d' <= Z.of_nat (String.length (text buf)).
Proof.
  intros Hrows Hlen Hd H. unfold run_fsm in H. split.
  - destruct (run_loop_committed _ _ _ _ _ _ _ H) as (F & D & _).
    apply total_nonneg in F.
    specialize (D (tame_cursor_kept rows Hrows)). cbn in D. lia.
  - exact (run_loop_bounded buf Hlen fuel rows (init_driver d c) _ Hrows Hd H).
Qed.

Lemma tbl_outer_tame : Forall (deep tame) tbl_outer.
Proof.
  unfold tbl_outer, tbl_abc.
  repeat (apply Forall_cons; [|]); try apply Forall_nil;
    cbn; unfold tame, no_predicate, cursor_kept; cbn; repeat split;
    try discriminate;
    try (intros f [= <-] buf d c; reflexivity).
Qed.

(** [tbl_outer] on "abx": the cursor ends at 1, inside the 3 bytes. *)
Lemma cursor_stays_inside_input_witness :
  0 <= 1 <= Z.of_nat (String.length "abx").
Proof.
  exact (cursor_stays_inside_input 4 tbl_outer "abx" 0 [] 1 1
           [(0, 1%nat); (0, 2%nat)] tbl_outer_tame
           ltac:(by_eval) ltac:(by_eval) eq_refl).
Defined.

(** ** A negative on-success state *)

(** X12. When the pass that started in [st0] reaches an eligible row that
    fires and whose on-success state is negative, no further pass is made:
    a row of kind ACCEPT makes the run return the consumed total, this row's
    length included (as a 32-bit [int]), and a row of kind NORMAL or REJECT
    makes it return -1; either way the callback of the row has run, and the
    cursor is where that callback left it plus the row's length. *)
Theorem negative_pass_state_halts {ctx local : Type} (fuel : nat)
  (pre : table ctx local) (t : transition ctx local) (rest : table ctx local)
  (buf : input) (st0 st : driver ctx) (n : Z) (c : ctx) :
  0 <= cur_state st0 ->
  scan (sub_run fuel) (pre ++ t :: rest) buf st0
  = scan (sub_run fuel) (t :: rest) buf st ->
  current_state t <> -1 ->
  cur_state st = current_state t ->
  run_transition (sub_run fuel) t buf (data_ptr st) (context_of st) = Ok (n, c) ->
  0 <= n ->
  state_pass t < 0 ->
  run_loop (S fuel) (pre ++ t :: rest) buf st0
  = Ok (match type t with
        | ACCEPT => int_wrap (nbytes_processed st + n)
        | _ => -1
        end,
        fst (call_transfn t buf (data_ptr st) c) + n,
        snd (call_transfn t buf (data_ptr st) c)).
Proof.
  intros H0 Hreach H1 H2 H3 H4 H5.
  rewrite run_loop_S by assumption.
  rewrite Hreach, (scan_row_pass _ t rest buf st n c H1 H2 H3 H4).
  cbv zeta. destruct (type t); cbn [bind];
    try rewrite run_loop_halted by (cbn; lia); reflexivity.
Qed.

(** "ab" routed to the state -1 with kind ACCEPT: the run returns 2 after
    one pass. *)
Lemma negative_pass_state_halts_witness :
  run_fsm 1 [row_str 0 "ab" (-1) (-1) ACCEPT None 0; sentinel] "abcd" 0 []
  = Ok (2, 2, []).
Proof.
  exact (negative_pass_state_halts 0 []
           (row_str 0 "ab" (-1) (-1) ACCEPT None 0) [sentinel] "abcd"
           (init_driver 0 []) (init_driver 0 []) 2 []
           ltac:(by_eval) ltac:(by_eval) ltac:(by_eval) ltac:(by_eval)
           ltac:(by_eval) ltac:(by_eval) ltac:(by_eval)).
Defined.

(** ** Rows with a negative source state *)

Section DeadRows.

Context {ctx local : Type}.

Variable run_sub : @sub_call ctx local.

Lemma scan_drop_dead_row (t : transition ctx local) rest buf :
  current_state t < -1 ->
  forall pre st,
    0 <= cur_state st ->
    scan run_sub (pre ++ t :: rest) buf st = scan run_sub (pre ++ rest) buf st.
Proof.
  intros Ht. induction pre as [|u pre IH]; intros st Hs.
  - cbn [app]. apply scan_skip; lia.
  - cbn [app scan].
    destruct (current_state u =? -1); [reflexivity|].
    destruct (cur_state st =? current_state u); [|apply IH; exact Hs].
    destruct (run_transition run_sub u buf (data_ptr st) (context_of st))
      as [r| |]; cbn [bind]; try reflexivity.
    destruct (fst r >=? 0); [reflexivity|].
    apply IH. unfold fail_redirect. cbn [cur_state].
    destruct (state_fail u >=? 0) eqn:G; [|exact Hs].
    rewrite Z.geb_leb, Z.leb_le in G. exact G.
Qed.

End DeadRows.

(** X13. The current state is never negative while a pass is under way: a
    fail-redirect only ever installs a non-negative state. So a row whose
    source state is negative and is not the sentinel value -1 is never
    tried, and a pass gives the same outcome with that row taken out of
    the table. *)
Theorem negative_source_row_is_dead {ctx local : Type} (fuel : nat)
  (pre : table ctx local) (t : transition ctx local) (rest : table ctx local)
  (buf : input) (st : driver ctx) :
  current_state t < -1 ->
  0 <= cur_state st ->
  scan (sub_run fuel) (pre ++ t :: rest) buf st
  = scan (sub_run fuel) (pre ++ rest) buf st.
Proof. intros Ht Hs. apply scan_drop_dead_row; assumption. Qed.

(** A row "a" for the state -7 behind a row that fails with the on-failure
    state -7: the row "a" of state 0 after it still fires. *)
Lemma negative_source_row_is_dead_witness :
  scan (sub_run 0)
       ([row_str 0 "x" 1 (-7) NORMAL None 0]
        ++ row_str (-7) "a" 9 (-1) ACCEPT None 0
        :: [row_str 0 "a" 1 (-1) ACCEPT None 1; sentinel])
       "a" (init_driver 0 [])
  = Ok (Broke 1 (mk_driver 1 1 true 1 [])).
Proof.
  rewrite (negative_source_row_is_dead 0
             [row_str 0 "x" 1 (-7) NORMAL None 0]
             (row_str (-7) "a" 9 (-1) ACCEPT None 0)
             [row_str 0 "a" 1 (-1) ACCEPT None 1; sentinel]
             "a" (init_driver 0 []) ltac:(by_eval) ltac:(by_eval)).
  reflexivity.
Defined.

(** ** The literal matcher and prefixes *)

Lemma get_lt_some s : forall n,
  (n < String.length s)%nat -> exists a, String.get n s = Some a.
Proof.
  induction s as [|b s IH]; intros n Hn; cbn in Hn; [lia|].
  destruct n as [|n]; [exists b; reflexivity|].
  cbn. apply IH. lia.
Qed.

Lemma get_some_lt s n a :
  String.get n s = Some a -> (n < String.length s)%nat.
Proof.
  intros H. destruct (Nat.lt_ge_cases n (String.length s)) as [L|L];
    [exact L|].
  rewrite (get_past_end s n L) in H. discriminate.
Qed.

(** A pattern without a NUL byte has a byte other than NUL at every index. *)
Lemma get_of_c_string p i :
  strlen p = String.length p -> (i < String.length p)%nat ->
  exists a, String.get i p = Some a /\ a <> NUL.
Proof.
  intros L Hi. pose proof (strlen_read p i ltac:(lia)) as H.
  unfold pattern_byte in H.
  destruct (String.get i p) as [a|]; [|congruence].
  exists a. split; [reflexivity|exact H].
Qed.

Lemma memcmp_eq_substring buf d p :
  strlen p = String.length p ->
  0 <= d <= Z.of_nat (String.length (text buf)) ->
  (memcmp_eq buf d p (String.length p) = true <->
   substring (Z.to_nat d) (String.length p) (text buf) = p).
Proof.
  intros L Hd. split.
  - intros E. pose proof E as E'. rewrite <- L in E'.
    pose proof (memcmp_eq_inside buf d p Hd E') as Hin. rewrite L in Hin.
    pose proof (proj1 (memcmp_eq_spec _ _ _ _) E) as H.
    apply get_correct. intros i.
    destruct (Nat.lt_ge_cases i (String.length p)) as [Hi|Hi].
    + rewrite substring_correct1 by assumption.
      destruct (get_of_c_string p i L Hi) as (a & Ga & Na).
      specialize (H i Hi). rewrite read_inside in H by lia.
      replace (Z.to_nat (d + Z.of_nat i)) with (i + Z.to_nat d)%nat in H
        by lia.
      destruct (get_lt_some (text buf) (i + Z.to_nat d) ltac:(lia))
        as (b & Gb).
      unfold pattern_byte in H. rewrite Ga, Gb in H. congruence.
    + rewrite substring_correct2 by assumption.
      symmetry. apply get_past_end. exact Hi.
  - intros E. apply memcmp_eq_spec. intros i Hi.
    destruct (get_of_c_string p i L Hi) as (a & Ga & Na).
    pose proof (substring_correct1 (text buf) (Z.to_nat d) (String.length p)
                  i Hi) as G.
    rewrite E, Ga in G. symmetry in G.
    pose proof (get_some_lt _ _ _ G) as Hlt.
    rewrite read_inside by lia.
    replace (Z.to_nat (d + Z.of_nat i)) with (i + Z.to_nat d)%nat by lia.
    unfold pattern_byte. rewrite G, Ga. reflexivity.
Qed.

(** X14. For an EXACT_STR row whose pattern holds no NUL byte and a cursor
    inside the input (or on its terminator): the attempt succeeds, with the
    length of the pattern, exactly when the input from the cursor on starts
    with the pattern; otherwise it returns -1. *)
Theorem exact_str_matches_prefix {ctx local : Type} (run_sub : sub_call)
  (t : transition ctx local) (buf : input) (d : Z) (c : ctx) (p : string) :
  match_type t = EXACT_STR ->
  str t = Some p ->
  strlen p = String.length p ->
  0 <= d <= Z.of_nat (String.length (text buf)) ->
  (substring (Z.to_nat d) (String.length p) (text buf) = p ->
   run_transition run_sub t buf d c = Ok (Z.of_nat (String.length p), c)) /\
  (substring (Z.to_nat d) (String.length p) (text buf) <> p ->
   run_transition run_sub t buf d c = Ok (-1, c)).
Proof.
  intros K E L Hd. unfold run_transition. rewrite K, E, L.
  pose proof (memcmp_eq_substring buf d p L Hd) as Hm.
  destruct (memcmp_eq buf d p (String.length p)).
  - split; [reflexivity|]. intros Hne. exfalso. apply Hne, Hm. reflexivity.
  - split; [|reflexivity]. intros Heq. apply Hm in Heq. discriminate.
Qed.

(** "cd" at the cursor 2 of "abcd". *)
Lemma exact_str_matches_prefix_witness :
  run_transition (sub_run 0) (row_str 0 "cd" 1 (-1) ACCEPT None 0) "abcd" 2 []
  = Ok (2, []).
Proof.
  exact (proj1 (exact_str_matches_prefix (sub_run 0)
                  (row_str 0 "cd" 1 (-1) ACCEPT None 0) "abcd" 2 [] "cd"
                  ltac:(by_eval) ltac:(by_eval) ltac:(by_eval)
                  ltac:(by_eval)) ltac:(by_eval)).
Defined.

(** Past the terminator the matchers compare against whatever memory
    holds: with '?' bytes behind the input "ab", the literal "?" matches at
    the cursor 5, where the input has no byte at all. *)
Example exact_str_beyond_input :
  run_transition (sub_run 0) (row_str 0 "?" 1 (-1) ACCEPT None 0) "ab" 5 []
  = Ok (1, []) /\
  substring 5 1 "ab" <> "?"%string.
Proof. split; [reflexivity|discriminate]. Qed.
